(** * A verified model of the assistant-bot address book (src/main.py)

    The development embeds the Python program shallowly:
    - a Python [str] is a list of Unicode code points;
    - exceptions are values of [exn], and a call that may raise returns [res];
    - methods that mutate [self] are computations in a state-and-exception
      monad [M] whose final state is observable also when they raise;
    - [datetime.date] is modelled with the proleptic Gregorian arithmetic of
      CPython's datetime module, [datetime.strptime] with the regular
      expression that CPython's _strptime builds for the format "%d.%m.%Y".

    Library behaviour that is not part of the repository (pickle's byte format,
    [str.lower]) is taken as a parameter, see [Runtime]. *)

From Stdlib Require Import ZArith NArith Lia Bool DecimalString.
From stdpp Require Import base numbers option list strings gmap.

Local Open Scope Z_scope.

(** ** Python strings *)

(** A character is its Unicode code point. *)
Definition char : Type := N.
Definition str : Type := list char.

(** An ASCII literal as a Python string. *)
Definition lit (s : string) : str :=
  map (fun a : Ascii.ascii => Ascii.N_of_ascii a) (String.list_ascii_of_string s).

(** The first character of an ASCII literal. *)
Definition ch (s : string) : char :=
  match lit s with
  | c :: _ => c
  | [] => 0%N
  end.

Definition in_range (lo hi c : char) : bool := ((lo <=? c) && (c <=? hi))%N.

Definition in_ranges (table : list (char * char)) (c : char) : bool :=
  existsb (fun r => in_range (fst r) (snd r) c) table.

(** The code points of zero of every run of ten decimal digits (general
    category Nd) of the Unicode database of CPython 3.11 (Unicode 14.0); the
    digit of value [k] of a run is at offset [k] from its zero. *)
Definition decimal_zeros : list char :=
  [48; 1632; 1776; 1984; 2406; 2534; 2662; 2790; 2918; 3046; 3174; 3302; 3430;
   3558; 3664; 3792; 3872; 4160; 4240; 6112; 6160; 6470; 6608; 6784; 6800;
   6992; 7088; 7232; 7248; 42528; 43216; 43264; 43472; 43504; 43600; 44016;
   65296; 66720; 68912; 69734; 69872; 69942; 70096; 70384; 70736; 70864;
   71248; 71360; 71472; 71904; 72016; 72784; 73040; 73120; 92768; 92864;
   93008; 120782; 120792; 120802; 120812; 120822; 123200; 123632; 125264;
   130032]%N.

(** [unicodedata.decimal]: the value of a decimal digit. *)
Definition decimal_value (c : char) : option Z :=
  match List.find (fun z => in_range z (z + 9)%N c) decimal_zeros with
  | Some z => Some (Z.of_N (c - z)%N)
  | None => None
  end.

(** [str.isdecimal] on one character; it is also the class [\d] of [re] on
    [str] patterns. *)
Definition isdecimal_char (c : char) : bool :=
  match decimal_value c with Some _ => true | None => false end.

(** The characters of Numeric_Type=Digit that are not decimal: superscripts,
    subscripts, circled digits and the like. *)
Definition other_digit_ranges : list (char * char) :=
  [(178, 179); (185, 185); (4969, 4977); (6618, 6618); (8304, 8304);
   (8308, 8313); (8320, 8329); (9312, 9320); (9332, 9340); (9352, 9360);
   (9450, 9450); (9461, 9469); (9471, 9471); (10102, 10110); (10112, 10120);
   (10122, 10130); (68160, 68163); (69216, 69224); (69714, 69722);
   (127232, 127242)]%N.

Definition isdigit_char (c : char) : bool :=
  isdecimal_char c || in_ranges other_digit_ranges c.

(** [str.isdigit]: every character is a digit and there is at least one. *)
Definition isdigit (s : str) : bool :=
  match s with
  | [] => false
  | _ => forallb isdigit_char s
  end.

(** [str.isspace] on one character. *)
Definition whitespace_ranges : list (char * char) :=
  [(9, 13); (28, 32); (133, 133); (160, 160); (5760, 5760); (8192, 8202);
   (8232, 8233); (8239, 8239); (8287, 8287); (12288, 12288)]%N.

Definition isspace_char (c : char) : bool := in_ranges whitespace_ranges c.

(** [len] *)
Definition len {A} (l : list A) : Z := Z.of_nat (length l).

(** [==] on strings *)
Definition str_eqb (a b : str) : bool := bool_decide (a = b).

(** [sep.join(parts)] *)
Fixpoint join (sep : str) (parts : list str) : str :=
  match parts with
  | [] => []
  | [p] => p
  | p :: rest => p ++ sep ++ join sep rest
  end.

(** The decimal numeral of an integer, as [str(n)] and [%i] print it. *)
Definition str_of_nat (n : nat) : str :=
  lit (NilZero.string_of_uint (Nat.to_uint n)).

Definition str_of_Z (z : Z) : str :=
  if z <? 0 then lit "-" ++ str_of_nat (Z.to_nat (- z)) else str_of_nat (Z.to_nat z).

(** [s.zfill(width)] for a numeral without sign. *)
Definition zfill (width : nat) (s : str) : str :=
  replicate (width - length s) (ch "0") ++ s.

(** [str.split()] without arguments: the maximal runs of characters that are
    not whitespace. [cur] is the run being read, in reverse. *)
Fixpoint split_aux (cur : str) (s : str) : list str :=
  match s with
  | [] => match cur with [] => [] | _ => [rev cur] end
  | c :: rest =>
      if isspace_char c
      then match cur with
           | [] => split_aux [] rest
           | _ => rev cur :: split_aux [] rest
           end
      else split_aux (c :: cur) rest
  end.

Definition split (s : str) : list str := split_aux [] s.

(** ** Exceptions *)

Inductive exn : Type :=
| ValueError (msg : str)
| IndexError (msg : str)
| OverflowError (msg : str)
| EOFError (msg : str)
| FileNotFoundError (msg : str)
| OSError (msg : str).

(** [str(e)] *)
Definition exn_message (e : exn) : str :=
  match e with
  | ValueError m | IndexError m | OverflowError m | EOFError m
  | FileNotFoundError m | OSError m => m
  end.

Definition is_ValueError (e : exn) : bool :=
  match e with ValueError _ => true | _ => false end.

Inductive res (A : Type) : Type :=
| Ok (a : A)
| Raise (e : exn).
Arguments Ok {A} a.
Arguments Raise {A} e.

Definition res_bind {A B} (r : res A) (k : A -> res B) : res B :=
  match r with
  | Ok a => k a
  | Raise e => Raise e
  end.

Notation "'let?' x ':=' e 'in' k" := (res_bind e (fun x => k))
  (at level 10, x pattern, e at level 100, k at level 200).

(** A method on a mutable object of type [St]: it returns or raises, and
    leaves a final state either way. *)
Definition M (St A : Type) : Type := St -> res A * St.

Definition ret {St A} (a : A) : M St A := fun s => (Ok a, s).
Definition raise {St A} (e : exn) : M St A := fun s => (Raise e, s).
Definition bind {St A B} (m : M St A) (k : A -> M St B) : M St B :=
  fun s => match m s with
           | (Ok a, s') => k a s'
           | (Raise e, s') => (Raise e, s')
           end.
Definition get {St} : M St St := fun s => (Ok s, s).
Definition modify {St} (f : St -> St) : M St unit := fun s => (Ok tt, f s).
(** A call without effect on the state. *)
Definition lift {St A} (r : res A) : M St A := fun s => (r, s).

Notation "'let!' x ':=' e 'in' k" := (bind e (fun x => k))
  (at level 10, x pattern, e at level 100, k at level 200).

(** ** datetime.date

    The proleptic Gregorian calendar of CPython's datetime module. *)
Module date.

Record t : Type := mk { year : Z; month : Z; day : Z }.

Definition MINYEAR : Z := 1.
Definition MAXYEAR : Z := 9999.

Definition is_leap (y : Z) : bool :=
  (y mod 4 =? 0) && (negb (y mod 100 =? 0) || (y mod 400 =? 0)).

Definition days_in_month (y m : Z) : Z :=
  if m =? 2 then (if is_leap y then 29 else 28)
  else if (m =? 4) || (m =? 6) || (m =? 9) || (m =? 11) then 30
  else 31.

(** Number of days before January 1st of year [y]. *)
Definition days_before_year (y : Z) : Z :=
  let y' := y - 1 in y' * 365 + y' / 4 - y' / 100 + y' / 400.

Definition DAYS_BEFORE_MONTH : list Z :=
  [0; 31; 59; 90; 120; 151; 181; 212; 243; 273; 304; 334].

(** Number of days of year [y] before the first day of month [m]. *)
Definition days_before_month (y m : Z) : Z :=
  nth (Z.to_nat (m - 1)) DAYS_BEFORE_MONTH 0
  + (if (2 <? m) && is_leap y then 1 else 0).

(** [date(year, month, day)] *)
Definition new (y m d : Z) : res t :=
  if negb ((MINYEAR <=? y) && (y <=? MAXYEAR))
  then Raise (ValueError (lit "year " ++ str_of_Z y ++ lit " is out of range"))
  else if negb ((1 <=? m) && (m <=? 12))
  then Raise (ValueError (lit "month must be in 1..12"))
  else if negb ((1 <=? d) && (d <=? days_in_month y m))
  then Raise (ValueError (lit "day is out of range for month"))
  else Ok (mk y m d).

(** [d.replace(year=y)] builds a new date and validates it again. *)
Definition replace_year (d : t) (y : Z) : res t := new y (month d) (day d).

(** [a < b]: the comparison of the (year, month, day) triples. *)
Definition lt (a b : t) : bool :=
  (year a <? year b)
  || ((year a =? year b)
      && ((month a <? month b)
          || ((month a =? month b) && (day a <? day b)))).

(** January 1st of year 1 is day 1. *)
Definition toordinal (d : t) : Z :=
  days_before_year (year d) + days_before_month (year d) (month d) + day d.

(** Monday is 0 and Sunday is 6. *)
Definition weekday (d : t) : Z := (toordinal d + 6) mod 7.

(** [(a - b).days] *)
Definition sub_days (a b : t) : Z := toordinal a - toordinal b.

(** [d + timedelta(days=1)] *)
Definition next_day (d : t) : res t :=
  if day d <? days_in_month (year d) (month d)
  then Ok (mk (year d) (month d) (day d + 1))
  else if month d <? 12 then Ok (mk (year d) (month d + 1) 1)
  else if year d <? MAXYEAR then Ok (mk (year d + 1) 1 1)
  else Raise (OverflowError (lit "date value out of range")).

(** [d + timedelta(days=k)] for [k >= 0] *)
Fixpoint add_days (d : t) (k : nat) : res t :=
  match k with
  | O => Ok d
  | S k' => let? d' := next_day d in add_days d' k'
  end.

(** [d.strftime("%d.%m.%Y")]: day and month on two digits, the year on four,
    the documented padding of %Y (some C libraries print a year below 1000
    without it). *)
Definition strftime (d : t) : str :=
  zfill 2 (str_of_Z (day d)) ++ lit "." ++ zfill 2 (str_of_Z (month d))
  ++ lit "." ++ zfill 4 (str_of_Z (year d)).

(** The dates that [date] objects can hold. *)
Definition valid (d : t) : Prop :=
  MINYEAR <= year d <= MAXYEAR /\ 1 <= month d <= 12
  /\ 1 <= day d <= days_in_month (year d) (month d).

End date.

(** ** datetime.strptime(value, "%d.%m.%Y") *)

(** The fragment of [re] that the format needs. *)
Inductive regex : Type :=
| Class (p : char -> bool)
| Seq (r1 r2 : regex)
| Alt (r1 r2 : regex).

(** Every way in which [r] matches a prefix of [s], as (matched text, rest),
    in the order in which the backtracking matcher tries them. *)
Fixpoint re_match (r : regex) (s : str) : list (str * str) :=
  match r with
  | Class p =>
      match s with
      | c :: s' => if p c then [([c], s')] else []
      | [] => []
      end
  | Seq r1 r2 =>
      flat_map (fun m1 => map (fun m2 => (fst m1 ++ fst m2, snd m2))
                              (re_match r2 (snd m1)))
               (re_match r1 s)
  | Alt r1 r2 => re_match r1 s ++ re_match r2 s
  end.

Definition re_char (c : string) : regex := Class (in_range (ch c) (ch c)).
Definition re_range (lo hi : string) : regex := Class (in_range (ch lo) (ch hi)).
Definition re_digit : regex := Class isdecimal_char.

(** %d is [3[0-1]|[1-2]\d|0[1-9]|[1-9]| [1-9]] *)
Definition re_d : regex :=
  Alt (Seq (re_char "3") (re_range "0" "1"))
 (Alt (Seq (re_range "1" "2") re_digit)
 (Alt (Seq (re_char "0") (re_range "1" "9"))
 (Alt (re_range "1" "9")
      (Seq (re_char " ") (re_range "1" "9"))))).

(** %m is [1[0-2]|0[1-9]|[1-9]] *)
Definition re_m : regex :=
  Alt (Seq (re_char "1") (re_range "0" "2"))
 (Alt (Seq (re_char "0") (re_range "1" "9"))
      (re_range "1" "9")).

(** %Y is [\d\d\d\d] *)
Definition re_Y : regex := Seq re_digit (Seq re_digit (Seq re_digit re_digit)).

(** [format_regex.match(data_string)] for the pattern
    [(?P<d>...)\.(?P<m>...)\.(?P<Y>...)]: the groups d, m and Y of the first
    match, and the text after it. *)
Definition format_regex_match (s : str) : option (str * str * str * str) :=
  head
    (flat_map (fun d =>
     flat_map (fun dot1 =>
     flat_map (fun m =>
     flat_map (fun dot2 =>
     map (fun y => (fst d, fst m, fst y, snd y))
         (re_match re_Y (snd dot2)))
       (re_match (re_char ".") (snd m)))
       (re_match re_m (snd dot1)))
       (re_match (re_char ".") (snd d)))
       (re_match re_d s)).

(** [s.strip()] *)
Fixpoint lstrip (s : str) : str :=
  match s with
  | c :: s' => if isspace_char c then lstrip s' else s
  | [] => []
  end.
Definition strip (s : str) : str := rev (lstrip (rev (lstrip s))).

Fixpoint digits_value (acc : Z) (s : str) : option Z :=
  match s with
  | [] => Some acc
  | c :: s' =>
      match decimal_value c with
      | Some v => digits_value (10 * acc + v) s'
      | None => None
      end
  end.

(** [int(s)] on the texts that the groups of the format can hold: decimal
    digits of any script, with whitespace around them. (Signs and underscores,
    which [int] also reads, never occur in a group.) *)
Definition int (s : str) : res Z :=
  match strip s with
  | [] => Raise (ValueError (lit "invalid literal for int() with base 10"))
  | digits =>
      match digits_value 0 digits with
      | Some z => Ok z
      | None => Raise (ValueError (lit "invalid literal for int() with base 10"))
      end
  end.

(** [datetime.strptime(value, "%d.%m.%Y").date()]. The messages of its
    ValueErrors are given without the text that %r interpolates. *)
Definition strptime (value : str) : res date.t :=
  match format_regex_match value with
  | None => Raise (ValueError (lit "time data does not match format"))
  | Some (d, m, y, rest) =>
      match rest with
      | _ :: _ => Raise (ValueError (lit "unconverted data remains"))
      | [] =>
          let? day := int d in
          let? month := int m in
          let? year := int y in
          date.new year month day
      end
  end.


(** ** The fields *)

Module Name.
Record t : Type := mk { value : str }.

Definition init (value : str) : res t :=
  match value with
  | [] => Raise (ValueError (lit "Name cannot be empty"))
  | _ => Ok (mk value)
  end.
End Name.

Module Phone.
Record t : Type := mk { value : str }.

Definition init (value : str) : res t :=
  if negb (isdigit value) || negb (len value =? 10)
  then Raise (ValueError (lit "Phone must contain exactly 10 digits"))
  else Ok (mk value).
End Phone.

Module Birthday.
Record t : Type := mk { value : str }.

Definition init (value : str) : res t :=
  match strptime value with
  | Ok _ => Ok (mk value)
  | Raise e =>
      if is_ValueError e
      then Raise (ValueError (lit "Invalid date format. Use DD.MM.YYYY"))
      else Raise e
  end.

Definition date_obj (self : t) : res date.t := strptime (value self).
End Birthday.

(** ** Record *)

Module Record.
Record t : Type :=
  mk { name : Name.t; phones : list Phone.t; birthday : option Birthday.t }.

Definition init (name : str) : res t :=
  let? n := Name.init name in
  Ok (mk n [] None).

Definition set_phones (ps : list Phone.t) (self : t) : t :=
  mk (name self) ps (birthday self).

Definition set_birthday (b : option Birthday.t) (self : t) : t :=
  mk (name self) (phones self) b.

Definition add_phone (phone : str) : M t unit :=
  let! p := lift (Phone.init phone) in
  modify (fun self => set_phones (phones self ++ [p]) self).

(** The loop of [edit_phone] from index [i] on, [rest] being the phones not
    yet visited. *)
Fixpoint edit_phone_loop (i : nat) (rest : list Phone.t)
         (old_phone new_phone : str) : M t unit :=
  match rest with
  | [] => raise (ValueError (lit "Phone not found"))
  | ph :: rest' =>
      if str_eqb (Phone.value ph) old_phone
      then
        let! p := lift (Phone.init new_phone) in
        modify (fun self => set_phones (<[i := p]> (phones self)) self)
      else edit_phone_loop (S i) rest' old_phone new_phone
  end.

Definition edit_phone (old_phone new_phone : str) : M t unit :=
  let! self := get in
  edit_phone_loop 0 (phones self) old_phone new_phone.

Definition add_birthday (birthday : str) : M t unit :=
  let! b := lift (Birthday.init birthday) in
  modify (set_birthday (Some b)).

(** [__str__] *)
Definition to_str (self : t) : str :=
  let phones := join (lit "; ") (map Phone.value (phones self)) in
  let bday :=
    match birthday self with
    | Some b => lit ", birthday: " ++ Birthday.value b
    | None => []
    end in
  lit "Contact name: " ++ Name.value (name self) ++ lit ", phones: "
  ++ phones ++ bday.
End Record.

(** ** AddressBook *)

Module AddressBook.

(** [self.data]: a dictionary in insertion order. *)
Definition t : Type := list (str * Record.t).

Definition empty : t := [].

(** [self.data[key] = record]: an existing key keeps its place. *)
Fixpoint setitem (key : str) (record : Record.t) (data : t) : t :=
  match data with
  | [] => [(key, record)]
  | (k, r) :: rest =>
      if str_eqb k key then (k, record) :: rest
      else (k, r) :: setitem key record rest
  end.

Definition add_record (record : Record.t) : M t unit :=
  modify (setitem (Name.value (Record.name record)) record).

Fixpoint find (name : str) (data : t) : option Record.t :=
  match data with
  | [] => None
  | (k, r) :: rest => if str_eqb k name then Some r else find name rest
  end.

(** [self.data.values()] *)
Definition values (data : t) : list Record.t := map snd data.

(** One element of the result of [get_upcoming_birthdays]. *)
Record entry : Type := mk_entry { name : str; congratulation_date : str }.

(** The body of the loop of [get_upcoming_birthdays] for one record;
    [result] is the list built so far. *)
Definition upcoming_step (days : Z) (today : date.t) (record : Record.t)
           (result : list entry) : res (list entry) :=
  match Record.birthday record with
  | None => Ok result
  | Some birthday =>
      let? born := Birthday.date_obj birthday in
      let? bday := date.replace_year born (date.year today) in
      let? bday :=
        (if date.lt bday today
         then date.replace_year bday (date.year today + 1)
         else Ok bday) in
      if (0 <=? date.sub_days bday today) && (date.sub_days bday today <=? days)
      then
        let? bday :=
          (if date.weekday bday =? 5 then date.add_days bday 2
           else if date.weekday bday =? 6 then date.add_days bday 1
           else Ok bday) in
        Ok (result ++ [mk_entry (Name.value (Record.name record))
                                (date.strftime bday)])
      else Ok result
  end.

Fixpoint upcoming_loop (days : Z) (today : date.t) (records : list Record.t)
         (result : list entry) : res (list entry) :=
  match records with
  | [] => Ok result
  | record :: rest =>
      let? result' := upcoming_step days today record result in
      upcoming_loop days today rest result'
  end.

(** [today] is the value that [date.today()] returns during the call. *)
Definition get_upcoming_birthdays (days : Z) (today : date.t) (self : t)
  : res (list entry) :=
  upcoming_loop days today (values self) [].

(** [__str__] *)
Definition to_str (self : t) : str :=
  match self with
  | [] => lit "Address book is empty"
  | _ => join (lit "
") (map Record.to_str (values self))
  end.
End AddressBook.

(** The book once the record object that it holds under [key] has taken the
    state [record]. The dictionary holds the object itself, not a copy: a
    method that changes the object changes what the book shows under [key].
    A book without the key holds no such object and stays as it is; nothing
    is inserted. *)
Fixpoint in_place (key : str) (record : Record.t) (data : AddressBook.t)
  : AddressBook.t :=
  match data with
  | [] => []
  | (k, r) :: rest =>
      if str_eqb k key then (k, record) :: rest
      else (k, r) :: in_place key record rest
  end.

(** ** The library behaviour taken as a parameter

    [pickle.dumps] and [pickle.loads] restricted to address books (the byte
    format is pickle's own), and [str.lower]. *)
Class Runtime : Type := {
  bytes : Type;
  pickle_dumps : AddressBook.t -> bytes;
  pickle_loads : bytes -> res AddressBook.t;
  str_lower : str -> str
}.

Section Program.
Context `{RT : Runtime}.

(** *** Persistence

    What the file system holds under a name. A name under which it holds
    nothing is no file: [open] for reading raises FileNotFoundError, [open]
    for writing creates the file. *)
Inductive file : Type :=
| Content (content : bytes)
    (* a file that is read and written without error *)
| Unavailable (e : exn)
    (* a name that [open] refuses with [e]: a directory, a file that the
       process may not open *)
| Failing (content : bytes) (e : exn) (remains : bytes).
    (* a file that holds [content] and opens, but writing to it raises [e]
       and leaves [remains] in it: a device that is full or broken *)

Definition filesystem : Type := gmap str file.

Definition default_filename : str := lit "addressbook.pkl".

(** [with open(filename, "rb") as f]: what reading [f] to its end gives. *)
Definition read_file (filename : str) (fs : filesystem) : res bytes :=
  match fs !! filename with
  | None =>
      Raise (FileNotFoundError (lit "[Errno 2] No such file or directory: '"
                                ++ filename ++ lit "'"))
  | Some (Content content) => Ok content
  | Some (Unavailable e) => Raise e
  | Some (Failing content _ _) => Ok content
  end.

(** [with open(filename, "wb") as f] around a write of [content] to [f]:
    [open] raises, or it creates or empties the file and the write follows,
    which raises on a failing file. *)
Definition write_file (filename : str) (content : bytes)
  : M filesystem unit :=
  fun fs =>
    match fs !! filename with
    | Some (Unavailable e) => (Raise e, fs)
    | Some (Failing _ e remains) =>
        (Raise e, <[filename := Failing remains e remains]> fs)
    | Some (Content _) | None => (Ok tt, <[filename := Content content]> fs)
    end.

Definition save_data (book : AddressBook.t) (filename : str)
  : M filesystem unit :=
  write_file filename (pickle_dumps book).

(** The [try] statement spans [open] and [pickle.load]; its handler takes
    FileNotFoundError only. *)
Definition load_data (filename : str) (fs : filesystem)
  : res AddressBook.t :=
  match (let? content := read_file filename fs in pickle_loads content) with
  | Raise (FileNotFoundError _) => Ok AddressBook.empty
  | r => r
  end.

(** *** The command loop *)

Definition parse_input (user_input : str) : res (str * list str) :=
  let parts := split user_input in
  match parts with
  | [] => Raise (IndexError (lit "list index out of range"))
  | first :: rest => Ok (str_lower first, rest)
  end.

(** What the process holds and has done: the book, the files, and the
    messages shown through the view, oldest first. *)
Record world : Type :=
  mk_world { book : AddressBook.t; files : filesystem; shown : list str }.

(** [view.show_message] and [view.show_contacts] *)
Definition show_message (message : str) : M world unit :=
  modify (fun w => mk_world (book w) (files w) (shown w ++ [message])).

Definition help_text : str := lit "
Available commands:
hello
add <name> <phone>
change <name> <old_phone> <new_phone>
phone <name>
all
add-birthday <name> <DD.MM.YYYY>
show-birthday <name>
birthdays
close / exit
".

Definition show_help : M world unit := show_message help_text.

(** A method of the book, run on the book of the world. *)
Definition on_book {A} (m : M AddressBook.t A) : M world A :=
  fun w =>
    let (r, b) := m (book w) in
    (r, mk_world b (files w) (shown w)).

(** A method of [record], an object that [main] has found in the book under
    [key] or has just made and passed to [add_record]. The method changes the
    object and nothing else: the book shows the change where it holds the
    object, also when the method raises, and a book that does not hold it is
    as before. *)
Definition on_record {A} (key : str) (record : Record.t) (m : M Record.t A)
  : M world A :=
  on_book (fun b =>
    let (r, record') := m record in
    (r, in_place key record' b)).

Definition on_files {A} (m : M filesystem A) : M world A :=
  fun w =>
    let (r, fs) := m (files w) in
    (r, mk_world (book w) fs (shown w)).

(** [a, b = args] *)
Definition unpack2 (args : list str) : res (str * str) :=
  match args with
  | [a; b] => Ok (a, b)
  | _ :: _ :: _ :: _ =>
      Raise (ValueError (lit "too many values to unpack (expected 2)"))
  | _ =>
      Raise (ValueError (lit "not enough values to unpack (expected 2, got "
                         ++ str_of_nat (length args) ++ lit ")"))
  end.

(** [a, b, c = args] *)
Definition unpack3 (args : list str) : res (str * str * str) :=
  match args with
  | [a; b; c] => Ok (a, b, c)
  | _ :: _ :: _ :: _ :: _ =>
      Raise (ValueError (lit "too many values to unpack (expected 3)"))
  | _ =>
      Raise (ValueError (lit "not enough values to unpack (expected 3, got "
                         ++ str_of_nat (length args) ++ lit ")"))
  end.

(** [args[0]] *)
Definition first_arg (args : list str) : res str :=
  match args with
  | a :: _ => Ok a
  | [] => Raise (IndexError (lit "list index out of range"))
  end.

Definition contact_not_found {A} : M world A :=
  raise (ValueError (lit "Contact not found")).

Fixpoint show_upcoming (upcoming : list AddressBook.entry) : M world unit :=
  match upcoming with
  | [] => ret tt
  | u :: rest =>
      let! _ := show_message (AddressBook.name u ++ lit ": "
                              ++ AddressBook.congratulation_date u) in
      show_upcoming rest
  end.

(** The body of the [try] statement; it returns [true] when it leaves the
    loop with [break]. *)
Definition command_body (today : date.t) (command : str) (args : list str)
  : M world bool :=
  if str_eqb command (lit "exit") || str_eqb command (lit "close") then
    let! w := get in
    let! _ := on_files (save_data (book w) default_filename) in
    let! _ := show_message (lit "Good bye!") in
    ret true
  else if str_eqb command (lit "hello") then
    let! _ := show_message (lit "How can I help you?") in
    ret false
  else if str_eqb command (lit "add") then
    let! (name, phone) := lift (unpack2 args) in
    let! w := get in
    let! record :=
      (match AddressBook.find name (book w) with
       | Some record => ret record
       | None =>
           let! record := lift (Record.init name) in
           let! _ := on_book (AddressBook.add_record record) in
           ret record
       end) in
    let! _ := on_record name record (Record.add_phone phone) in
    let! _ := show_message (lit "Contact added.") in
    ret false
  else if str_eqb command (lit "change") then
    let! (name, old_phone, new_phone) := lift (unpack3 args) in
    let! w := get in
    match AddressBook.find name (book w) with
    | None => contact_not_found
    | Some record =>
        let! _ := on_record name record
                            (Record.edit_phone old_phone new_phone) in
        let! _ := show_message (lit "Phone updated.") in
        ret false
    end
  else if str_eqb command (lit "phone") then
    let! name := lift (first_arg args) in
    let! w := get in
    match AddressBook.find name (book w) with
    | None => contact_not_found
    | Some record =>
        let! _ := show_message
                    (join (lit "; ") (map Phone.value (Record.phones record))) in
        ret false
    end
  else if str_eqb command (lit "all") then
    let! w := get in
    let! _ := show_message (AddressBook.to_str (book w)) in
    ret false
  else if str_eqb command (lit "add-birthday") then
    let! (name, bday) := lift (unpack2 args) in
    let! w := get in
    match AddressBook.find name (book w) with
    | None => contact_not_found
    | Some record =>
        let! _ := on_record name record (Record.add_birthday bday) in
        let! _ := show_message (lit "Birthday added.") in
        ret false
    end
  else if str_eqb command (lit "show-birthday") then
    let! name := lift (first_arg args) in
    let! w := get in
    match AddressBook.find name (book w) with
    | Some (Record.mk _ _ (Some birthday)) =>
        let! _ := show_message (Birthday.value birthday) in
        ret false
    | _ =>
        let! _ := show_message (lit "No birthday set.") in
        ret false
    end
  else if str_eqb command (lit "birthdays") then
    let! w := get in
    let! upcoming := lift (AddressBook.get_upcoming_birthdays 7 today (book w)) in
    match upcoming with
    | [] =>
        let! _ := show_message (lit "No upcoming birthdays.") in
        ret false
    | _ =>
        let! _ := show_upcoming upcoming in
        ret false
    end
  else
    let! _ := show_message (lit "Invalid command.") in
    ret false.

(** How one turn of [while True] ends. *)
Inductive outcome : Type :=
| Continue
| Break
| Crash (e : exn).

(** One turn of the loop on the line that [input] returns. [parse_input] is
    called before the [try] statement is entered: what it raises leaves
    [main]. *)
Definition main_iteration (today : date.t) (line : str) (w : world)
  : outcome * world :=
  match parse_input line with
  | Raise e => (Crash e, w)
  | Ok (command, args) =>
      match command_body today command args w with
      | (Ok true, w') => (Break, w')
      | (Ok false, w') => (Continue, w')
      | (Raise e, w') =>
          (Continue, snd (show_message (lit "Error: " ++ exn_message e) w'))
      end
  end.

(** The loop on the lines that the user types, each with the date of the
    day it is typed on. It ends with [None] after exit or close, and with
    the exception that leaves [main] otherwise; [input] raises EOFError when
    there is no line left. *)
Fixpoint main_loop (inputs : list (date.t * str)) (w : world)
  : option exn * world :=
  match inputs with
  | [] => (Some (EOFError (lit "EOF when reading a line")), w)
  | (today, line) :: rest =>
      match main_iteration today line w with
      | (Continue, w') => main_loop rest w'
      | (Break, w') => (None, w')
      | (Crash e, w') => (Some e, w')
      end
  end.

Definition main (inputs : list (date.t * str)) (fs : filesystem)
  : option exn * world :=
  match load_data default_filename fs with
  | Raise e => (Some e, mk_world AddressBook.empty fs [])
  | Ok b =>
      let w := mk_world b fs [] in
      let w := snd (show_message (lit "Welcome to the assistant bot!") w) in
      let w := snd (show_help w) in
      main_loop inputs w
  end.

End Program.


(** ** A runtime to run the program on

    [str.lower] restricted to ASCII, and in pickle's place a serialiser that
    writes every string and list behind its length. It instantiates [Runtime]
    where a statement about every runtime is applied to a concrete one. *)
Module Codec.

Definition ascii_lower_char (c : char) : char :=
  if in_range (ch "A") (ch "Z") c then (c + 32)%N else c.

Definition ascii_lower (s : str) : str := map ascii_lower_char s.

Definition put_str (s : str) : list N := N.of_nat (length s) :: s.

Definition put_list {A} (put : A -> list N) (l : list A) : list N :=
  N.of_nat (length l) :: concat (map put l).

Definition put_record (r : Record.t) : list N :=
  put_str (Name.value (Record.name r))
  ++ put_list put_str (map Phone.value (Record.phones r))
  ++ match Record.birthday r with
     | Some b => 1%N :: put_str (Birthday.value b)
     | None => [0%N]
     end.

Definition put_item (item : str * Record.t) : list N :=
  put_str (fst item) ++ put_record (snd item).

Definition dumps (b : AddressBook.t) : list N := put_list put_item b.

(** A reader takes a value off the front of the input. *)
Definition reader (A : Type) : Type := list N -> option (A * list N).

Definition get_str : reader str :=
  fun input =>
    match input with
    | n :: rest =>
        if (N.to_nat n <=? length rest)%nat
        then Some (take (N.to_nat n) rest, drop (N.to_nat n) rest)
        else None
    | [] => None
    end.

Fixpoint get_many {A} (get : reader A) (n : nat) : reader (list A) :=
  fun input =>
    match n with
    | O => Some ([], input)
    | S n' =>
        match get input with
        | Some (a, rest) =>
            match get_many get n' rest with
            | Some (l, rest') => Some (a :: l, rest')
            | None => None
            end
        | None => None
        end
    end.

Definition get_list {A} (get : reader A) : reader (list A) :=
  fun input =>
    match input with
    | n :: rest => get_many get (N.to_nat n) rest
    | [] => None
    end.

Definition get_record : reader Record.t :=
  fun input =>
    match get_str input with
    | Some (name, rest) =>
        match get_list get_str rest with
        | Some (phones, tag :: rest') =>
            if (tag =? 0)%N
            then Some (Record.mk (Name.mk name) (map Phone.mk phones) None, rest')
            else match get_str rest' with
                 | Some (b, rest'') =>
                     Some (Record.mk (Name.mk name) (map Phone.mk phones)
                                     (Some (Birthday.mk b)), rest'')
                 | None => None
                 end
        | _ => None
        end
    | None => None
    end.

Definition get_item : reader (str * Record.t) :=
  fun input =>
    match get_str input with
    | Some (key, rest) =>
        match get_record rest with
        | Some (r, rest') => Some ((key, r), rest')
        | None => None
        end
    | None => None
    end.

Definition loads (input : list N) : res AddressBook.t :=
  match get_list get_item input with
  | Some (b, []) => Ok b
  | _ => Raise (ValueError (lit "could not read the address book"))
  end.

#[export] Instance runtime : Runtime :=
  {| bytes := list N;
     pickle_dumps := dumps;
     pickle_loads := loads;
     str_lower := ascii_lower |}.

End Codec.

(** ** The notions of the specification *)

(** A book as the program builds it: no key twice, and every record under
    the value of its name. *)
Definition wf_book (b : AddressBook.t) : Prop :=
  NoDup (map fst b)
  /\ Forall (fun item => Name.value (Record.name (snd item)) = fst item) b.

(** The claim's reading of "10 decimal digits": the characters 0-9. *)
Definition ten_ascii_digits (value : str) : bool :=
  (length value =? 10)%nat && forallb (in_range (ch "0") (ch "9")) value.

(** Ten characters that [str.isdigit] takes for digits. *)
Definition ten_unicode_digits (value : str) : bool :=
  (length value =? 10)%nat && forallb isdigit_char value.

(** This year's occurrence of the month and day of [born], rolled forward one
    year when it has passed relative to [today]. *)
Definition occurrence (born today : date.t) : res date.t :=
  let? this_year := date.replace_year born (date.year today) in
  if date.lt this_year today
  then date.replace_year born (date.year today + 1)
  else Ok this_year.

(** The occurrence is at most [days] days ahead, today included. *)
Definition in_window (occ today : date.t) (days : Z) : Prop :=
  0 <= date.sub_days occ today <= days.

Definition Saturday : Z := 5.
Definition Sunday : Z := 6.
Definition Monday : Z := 0.

(** The day of congratulation of an occurrence: the Monday after it when it
    is on a Saturday or a Sunday, the occurrence itself otherwise. *)
Definition congratulated_on (occ congr : date.t) : Prop :=
  date.valid congr
  /\ (date.weekday occ = Saturday ->
      date.toordinal congr = date.toordinal occ + 2
      /\ date.weekday congr = Monday)
  /\ (date.weekday occ = Sunday ->
      date.toordinal congr = date.toordinal occ + 1
      /\ date.weekday congr = Monday)
  /\ (date.weekday occ <> Saturday -> date.weekday occ <> Sunday ->
      congr = occ).

(** The record has a birthday whose occurrence is [occ]. *)
Definition has_occurrence (record : Record.t) (today occ : date.t) : Prop :=
  exists birthday born,
    Record.birthday record = Some birthday
    /\ Birthday.date_obj birthday = Ok born
    /\ occurrence born today = Ok occ.

(** The occurrence of every birthday of the book can be computed. *)
Definition occurrences_exist (records : list Record.t) (today : date.t) : Prop :=
  forall record birthday,
    In record records -> Record.birthday record = Some birthday ->
    exists born occ,
      Birthday.date_obj birthday = Ok born /\ occurrence born today = Ok occ.

(** [e] is the element of the result that the record accounts for. *)
Definition selects (days : Z) (today : date.t) (record : Record.t)
           (e : AddressBook.entry) : Prop :=
  exists occ congr,
    has_occurrence record today occ
    /\ in_window occ today days
    /\ congratulated_on occ congr
    /\ e = AddressBook.mk_entry (Name.value (Record.name record))
                                (date.strftime congr).

(** *** What [Birthday] takes *)

(** The words of a regular expression. *)
Fixpoint re_lang (r : regex) (t : str) : Prop :=
  match r with
  | Class p => exists c, t = [c] /\ p c = true
  | Seq r1 r2 => exists t1 t2, t = t1 ++ t2 /\ re_lang r1 t1 /\ re_lang r2 t2
  | Alt r1 r2 => re_lang r1 t \/ re_lang r2 t
  end.

(** [c] is one of the characters [lo] to [hi] of 0-9, of value [v]. *)
Definition ascii_digit (lo hi : string) (c : char) (v : Z) : Prop :=
  in_range (ch lo) (ch hi) c = true /\ v = Z.of_N c - 48.

(** [c] is a decimal digit of any script, of value [v]. *)
Definition decimal_digit (c : char) (v : Z) : Prop := decimal_value c = Some v.

(** The day as strptime reads it: 30 or 31, 10 to 29 (the second digit of any
    script), 01 to 09, 1 to 9, or a space and 1 to 9. *)
Inductive day_text : str -> Z -> Prop :=
| day_30_31 c v :
    ascii_digit "0" "1" c v -> day_text [ch "3"; c] (30 + v)
| day_10_29 c1 v1 c2 v2 :
    ascii_digit "1" "2" c1 v1 -> decimal_digit c2 v2 ->
    day_text [c1; c2] (10 * v1 + v2)
| day_01_09 c v :
    ascii_digit "1" "9" c v -> day_text [ch "0"; c] v
| day_1_9 c v :
    ascii_digit "1" "9" c v -> day_text [c] v
| day_space c v :
    ascii_digit "1" "9" c v -> day_text [ch " "; c] v.

(** The month: 10 to 12, 01 to 09, or 1 to 9. *)
Inductive month_text : str -> Z -> Prop :=
| month_10_12 c v :
    ascii_digit "0" "2" c v -> month_text [ch "1"; c] (10 + v)
| month_01_09 c v :
    ascii_digit "1" "9" c v -> month_text [ch "0"; c] v
| month_1_9 c v :
    ascii_digit "1" "9" c v -> month_text [c] v.

(** The year: four decimal digits of any script. *)
Inductive year_text : str -> Z -> Prop :=
| year_4_digits c1 v1 c2 v2 c3 v3 c4 v4 :
    decimal_digit c1 v1 -> decimal_digit c2 v2 ->
    decimal_digit c3 v3 -> decimal_digit c4 v4 ->
    year_text [c1; c2; c3; c4] (1000 * v1 + 100 * v2 + 10 * v3 + v4).

(** The strings that [Birthday] takes: day, month and year as above between
    dots, nothing before or after, of a day that the calendar has, from year
    1 on. *)
Definition strptime_accepts (value : str) : Prop :=
  exists ds d ms m ys y,
    value = ds ++ [ch "."] ++ ms ++ [ch "."] ++ ys
    /\ day_text ds d /\ month_text ms m /\ year_text ys y
    /\ 1 <= y /\ d <= date.days_in_month y m.

Definition ascii_value (c : char) : Z := Z.of_N c - 48.

(** The claim's reading of the format: two digits, a dot, two digits, a dot,
    four digits, all of 0-9, with a month from 1 to 12 and a day that the month
    has in that year. *)
Definition exact_DDMMYYYY (value : str) : bool :=
  match value with
  | [d1; d2; p1; m1; m2; p2; y1; y2; y3; y4] =>
      let day := 10 * ascii_value d1 + ascii_value d2 in
      let month := 10 * ascii_value m1 + ascii_value m2 in
      let year := 1000 * ascii_value y1 + 100 * ascii_value y2
                  + 10 * ascii_value y3 + ascii_value y4 in
      forallb (in_range (ch "0") (ch "9")) [d1; d2; m1; m2; y1; y2; y3; y4]
      && (p1 =? ch ".")%N && (p2 =? ch ".")%N
      && (1 <=? month) && (month <=? 12)
      && (1 <=? day) && (day <=? date.days_in_month year month)
  | _ => false
  end.

(** * Theorems *)

(** The tables and literals stay folded in the proofs. *)
#[global] Arguments in_range : simpl never.
#[global] Arguments isspace_char : simpl never.
#[global] Arguments isdecimal_char : simpl never.
#[global] Arguments isdigit_char : simpl never.
#[global] Arguments decimal_value : simpl never.
#[global] Arguments lit : simpl never.
#[global] Arguments ch : simpl never.

(** ** Strings *)

Lemma isdigit_forallb (s : str) :
  s <> [] -> isdigit s = forallb isdigit_char s.
Proof. destruct s; [congruence | reflexivity]. Qed.

Lemma len_eqb_length {A} (l : list A) (n : nat) :
  (len l =? Z.of_nat n) = (length l =? n)%nat.
Proof.
  unfold len.
  destruct (Nat.eqb_spec (length l) n) as [-> | Hne].
  - apply Z.eqb_refl.
  - apply Z.eqb_neq. lia.
Qed.

Lemma ascii_digit_is_decimal (c : char) :
  in_range (ch "0") (ch "9") c = true ->
  decimal_value c = Some (Z.of_N c - 48).
Proof.
  intros Hc. unfold decimal_value, decimal_zeros. cbn [List.find].
  change (48 + 9)%N with (ch "9"). change 48%N with (ch "0") at 1.
  rewrite Hc. f_equal.
  unfold in_range in Hc. apply andb_true_iff in Hc as [Hlo _].
  apply N.leb_le in Hlo. change (ch "0") with 48%N in Hlo. lia.
Qed.

Lemma ascii_digit_isdigit (c : char) :
  in_range (ch "0") (ch "9") c = true -> isdigit_char c = true.
Proof.
  intros Hc. unfold isdigit_char, isdecimal_char.
  now rewrite (ascii_digit_is_decimal c Hc).
Qed.

(** ** Phone *)

Lemma ten_ascii_digits_unicode (value : str) :
  ten_ascii_digits value = true -> ten_unicode_digits value = true.
Proof.
  unfold ten_ascii_digits, ten_unicode_digits.
  rewrite !andb_true_iff, !forallb_forall.
  intros [Hlen Hall]. split; [exact Hlen |].
  intros c Hc. apply ascii_digit_isdigit. now apply Hall.
Qed.

Lemma Phone_init_ten_digits (value : str) :
  Phone.init value
  = if ten_unicode_digits value then Ok (Phone.mk value)
    else Raise (ValueError (lit "Phone must contain exactly 10 digits")).
Proof.
  unfold Phone.init, ten_unicode_digits.
  change 10 with (Z.of_nat 10). rewrite len_eqb_length.
  destruct (Nat.eqb_spec (length value) 10) as [Hlen | Hlen]; cbn [andb negb orb].
  - rewrite isdigit_forallb by (intros ->; discriminate Hlen).
    destruct (forallb isdigit_char value); reflexivity.
  - now rewrite orb_true_r.
Qed.

(** C4, as the code has it: [Phone] takes exactly the strings of ten characters
    that [str.isdigit] takes for digits, which are the characters 0-9 and the
    other digits of Unicode; it stores the string unchanged, and raises
    ValueError on every other string. Ten characters 0-9 are always taken. *)
Theorem Phone_init_unicode_digits (value : str) :
  (Phone.init value = Ok (Phone.mk value) <-> ten_unicode_digits value = true)
  /\ (forall p, Phone.init value = Ok p -> Phone.value p = value)
  /\ (ten_unicode_digits value = false <->
      Phone.init value
      = Raise (ValueError (lit "Phone must contain exactly 10 digits")))
  /\ (ten_ascii_digits value = true -> Phone.init value = Ok (Phone.mk value)).
Proof.
  rewrite Phone_init_ten_digits.
  repeat split.
  - destruct (ten_unicode_digits value); [reflexivity | discriminate].
  - now intros ->.
  - intros p. destruct (ten_unicode_digits value); [| discriminate].
    now intros [= <-].
  - now intros ->.
  - destruct (ten_unicode_digits value); [discriminate | reflexivity].
  - intros H. now rewrite (ten_ascii_digits_unicode value H).
Qed.

(** C4, as the claim states it, fails: ten times the superscript two (U+00B2)
    is no string of characters 0-9, and [Phone] takes it. *)
Lemma Phone_init_superscript_digits :
  ten_ascii_digits (replicate 10 178%N) = false
  /\ Phone.init (replicate 10 178%N) = Ok (Phone.mk (replicate 10 178%N)).
Proof. split; reflexivity. Qed.

(** The same with the Arabic-Indic digits U+0660 to U+0669. *)
Lemma Phone_init_arabic_indic_digits :
  let value := [1633; 1634; 1635; 1636; 1637; 1638; 1639; 1640; 1641; 1632]%N in
  ten_ascii_digits value = false /\ Phone.init value = Ok (Phone.mk value).
Proof. split; reflexivity. Qed.

(** ** Record.edit_phone *)

Lemma edit_phone_loop_no_match (rest : list Phone.t) (old_phone new_phone : str) :
  Forall (fun ph => Phone.value ph <> old_phone) rest ->
  forall i self,
    Record.edit_phone_loop i rest old_phone new_phone self
    = (Raise (ValueError (lit "Phone not found")), self).
Proof.
  induction 1 as [| ph rest Hph _ IH]; intros i self; cbn.
  - reflexivity.
  - unfold str_eqb. rewrite bool_decide_eq_false_2 by exact Hph. apply IH.
Qed.

Lemma edit_phone_loop_first_match (mid : list Phone.t) (ph : Phone.t)
      (post : list Phone.t) (old_phone new_phone : str) :
  Forall (fun ph => Phone.value ph <> old_phone) mid ->
  Phone.value ph = old_phone ->
  forall i self,
    Record.edit_phone_loop i (mid ++ ph :: post) old_phone new_phone self
    = match Phone.init new_phone with
      | Ok p =>
          (Ok tt,
           Record.set_phones (<[(i + length mid)%nat := p]> (Record.phones self)) self)
      | Raise e => (Raise e, self)
      end.
Proof.
  intros Hmid Hph. induction Hmid as [| ph' mid Hph' _ IH]; intros i self; cbn.
  - unfold str_eqb. rewrite bool_decide_eq_true_2 by exact Hph.
    unfold bind, lift, modify. rewrite Nat.add_0_r.
    destruct (Phone.init new_phone); reflexivity.
  - unfold str_eqb. rewrite bool_decide_eq_false_2 by exact Hph'.
    rewrite IH. now rewrite Nat.add_succ_comm.
Qed.

Lemma first_match_split (phones : list Phone.t) (old_phone : str) :
  (exists ph, In ph phones /\ Phone.value ph = old_phone) ->
  exists mid ph post,
    phones = mid ++ ph :: post
    /\ Forall (fun ph => Phone.value ph <> old_phone) mid
    /\ Phone.value ph = old_phone.
Proof.
  induction phones as [| ph0 phones IH]; intros (ph & Hin & Hph).
  - destruct Hin.
  - destruct (decide (Phone.value ph0 = old_phone)) as [Heq | Hne].
    + exists [], ph0, phones. repeat split; [constructor | exact Heq].
    + destruct IH as (mid & ph1 & post & -> & Hmid & Hph1).
      { destruct Hin as [-> | Hin]; [contradiction | eauto]. }
      exists (ph0 :: mid), ph1, post. repeat split; [| exact Hph1].
      now constructor.
Qed.

(** C6: when [old_phone] is the value of a stored phone and [Phone] refuses
    [new_phone], [edit_phone] raises the ValueError of [Phone] and the record,
    so its list of phones, is what it was: [Phone(new_phone)] is evaluated
    before the assignment to [self.phones[i]]. *)
Theorem edit_phone_invalid_new_phone
        (self : Record.t) (old_phone new_phone : str) :
  (exists ph, In ph (Record.phones self) /\ Phone.value ph = old_phone) ->
  (forall p, Phone.init new_phone <> Ok p) ->
  Record.edit_phone old_phone new_phone self
  = (Raise (ValueError (lit "Phone must contain exactly 10 digits")), self).
Proof.
  intros Hmatch Hbad.
  destruct (first_match_split _ _ Hmatch) as (mid & ph & post & Hsplit & Hmid & Hph).
  unfold Record.edit_phone, bind, get. rewrite Hsplit.
  rewrite (edit_phone_loop_first_match mid ph post old_phone new_phone Hmid Hph).
  rewrite Phone_init_ten_digits in *.
  destruct (ten_unicode_digits new_phone); [| reflexivity].
  now destruct (Hbad (Phone.mk new_phone)).
Qed.

Lemma edit_phone_invalid_new_phone_witness :
  let self := Record.mk (Name.mk (lit "Ann"))
                [Phone.mk (lit "0123456789"); Phone.mk (lit "1111111111")] None in
  Record.edit_phone (lit "1111111111") (lit "12345") self
  = (Raise (ValueError (lit "Phone must contain exactly 10 digits")), self).
Proof.
  intros self.
  apply (edit_phone_invalid_new_phone self (lit "1111111111") (lit "12345")).
  - exists (Phone.mk (lit "1111111111")). split; [right; left |]; reflexivity.
  - intros p. rewrite Phone_init_ten_digits. vm_compute. discriminate.
Defined.

(** C7: when no stored phone has the value [old_phone], [edit_phone] raises
    ValueError("Phone not found"), the code's not-found error, and the record
    is what it was; when some have, the first of them in order is the one
    replaced by the new phone. *)
Theorem edit_phone_first_match
        (self : Record.t) (old_phone new_phone : str) :
  ((forall ph, In ph (Record.phones self) -> Phone.value ph <> old_phone) ->
   Record.edit_phone old_phone new_phone self
   = (Raise (ValueError (lit "Phone not found")), self))
  /\ (forall (i : nat) (ph p : Phone.t),
        Record.phones self !! i = Some ph ->
        Phone.value ph = old_phone ->
        (forall (j : nat) ph', (j < i)%nat -> Record.phones self !! j = Some ph' ->
                       Phone.value ph' <> old_phone) ->
        Phone.init new_phone = Ok p ->
        Record.edit_phone old_phone new_phone self
        = (Ok tt, Record.set_phones (<[i := p]> (Record.phones self)) self)
          /\ Phone.value p = new_phone).
Proof.
  split.
  - intros Hnone. unfold Record.edit_phone, bind, get.
    apply edit_phone_loop_no_match. now apply List.Forall_forall.
  - intros i ph p Hi Hph Hbefore Hnew.
    assert (Hsplit : Record.phones self
                     = take i (Record.phones self) ++ ph :: drop (S i) (Record.phones self)).
    { symmetry. now apply take_drop_middle. }
    assert (Hmid : Forall (fun ph => Phone.value ph <> old_phone)
                          (take i (Record.phones self))).
    { apply Forall_lookup_2. intros j ph' Hj.
      apply lookup_take_Some in Hj as [Hj Hlt]. now apply (Hbefore j). }
    unfold Record.edit_phone, bind, get.
    rewrite Hsplit at 1.
    rewrite (edit_phone_loop_first_match _ ph _ old_phone new_phone Hmid Hph).
    rewrite Hnew. cbn [Nat.add].
    rewrite length_take_le by (apply Nat.lt_le_incl; now apply lookup_lt_Some in Hi).
    split; [reflexivity |].
    rewrite Phone_init_ten_digits in Hnew.
    destruct (ten_unicode_digits new_phone); [| discriminate].
    now injection Hnew as <-.
Qed.

Lemma edit_phone_first_match_witness :
  let a := Phone.mk (lit "0123456789") in
  let b := Phone.mk (lit "1111111111") in
  let self := Record.mk (Name.mk (lit "Ann")) [a; b; b] None in
  Record.edit_phone (lit "2222222222") (lit "3333333333") self
  = (Raise (ValueError (lit "Phone not found")), self)
  /\ Record.edit_phone (lit "1111111111") (lit "3333333333") self
     = (Ok tt, Record.set_phones [a; Phone.mk (lit "3333333333"); b] self).
Proof.
  intros a b self. split.
  - apply (proj1 (edit_phone_first_match self (lit "2222222222") (lit "3333333333"))).
    intros ph [<- | [<- | [<- | []]]]; vm_compute; discriminate.
  - apply (proj2 (edit_phone_first_match self (lit "1111111111") (lit "3333333333"))
                 1%nat b (Phone.mk (lit "3333333333"))).
    + reflexivity.
    + reflexivity.
    + intros j ph' Hj. assert (j = 0)%nat as -> by lia.
      intros [= <-]. vm_compute. discriminate.
    + reflexivity.
Defined.

(** ** AddressBook *)

Lemma setitem_fresh (key : str) (record : Record.t) (data : AddressBook.t) :
  AddressBook.find key data = None ->
  AddressBook.setitem key record data = data ++ [(key, record)].
Proof.
  induction data as [| [k r] data IH]; cbn; [reflexivity |].
  destruct (str_eqb k key); [discriminate |].
  intros H. now rewrite IH.
Qed.

(** The book holds the object under a key that [find] finds: there the
    change of the object is the assignment of its new state to the key. *)
Lemma in_place_present (key : str) (record old : Record.t)
      (data : AddressBook.t) :
  AddressBook.find key data = Some old ->
  in_place key record data = AddressBook.setitem key record data.
Proof.
  induction data as [| [k r] data IH]; cbn; [discriminate |].
  destruct (str_eqb k key); [reflexivity |].
  intros H. now rewrite IH.
Qed.

(** A book that does not hold the object does not change with it. *)
Lemma in_place_absent (key : str) (record : Record.t) (data : AddressBook.t) :
  AddressBook.find key data = None -> in_place key record data = data.
Proof.
  induction data as [| [k r] data IH]; cbn; [reflexivity |].
  destruct (str_eqb k key); [discriminate |].
  intros H. now rewrite IH.
Qed.

Lemma in_place_last (key : str) (record old : Record.t)
      (data : AddressBook.t) :
  AddressBook.find key data = None ->
  in_place key record (data ++ [(key, old)]) = data ++ [(key, record)].
Proof.
  induction data as [| [k r] data IH]; cbn.
  - unfold str_eqb. now rewrite bool_decide_eq_true_2.
  - destruct (str_eqb k key); [discriminate |].
    intros H. now rewrite IH.
Qed.

Lemma in_place_setitem (key : str) (r0 r1 : Record.t) (data : AddressBook.t) :
  in_place key r1 (AddressBook.setitem key r0 data)
  = AddressBook.setitem key r1 data.
Proof.
  induction data as [| [k r] data IH]; cbn.
  - unfold str_eqb. now rewrite bool_decide_eq_true_2.
  - destruct (str_eqb k key) eqn:E; cbn; rewrite E; [reflexivity |].
    now rewrite IH.
Qed.

Lemma split_aux_nonempty (s cur : str) (token : str) :
  In token (split_aux cur s) -> token <> [].
Proof.
  revert cur. induction s as [| c s IH]; intros cur; cbn.
  - destruct cur as [| c0 cur]; [intros [] |].
    intros [<- | []]. cbn. now destruct (rev cur).
  - destruct (isspace_char c).
    + destruct cur as [| c0 cur]; [apply IH |].
      intros [<- | Hin]; [| now apply IH in Hin].
      cbn. now destruct (rev cur).
    + apply IH.
Qed.

Lemma split_nonempty (s token : str) : In token (split s) -> token <> [].
Proof. apply split_aux_nonempty. Qed.

Lemma split_whitespace (s : str) :
  forallb isspace_char s = true -> split s = [].
Proof.
  unfold split. induction s as [| c s IH]; cbn; [reflexivity |].
  intros H. apply andb_true_iff in H as [-> Hs]. now apply IH.
Qed.

Lemma Record_init_nonempty (name : str) :
  name <> [] -> Record.init name = Ok (Record.mk (Name.mk name) [] None).
Proof. destruct name; [congruence | reflexivity]. Qed.

(** ** The command loop *)

Section Loop.
Context `{RT : Runtime}.

Lemma parse_input_args_nonempty (line command : str) (args : list str) :
  parse_input line = Ok (command, args) -> Forall (fun a => a <> []) args.
Proof.
  unfold parse_input. destruct (split line) as [| first rest] eqn:Hs; [discriminate |].
  intros [= _ <-]. apply List.Forall_forall. intros a Ha.
  apply (split_nonempty line). rewrite Hs. now right.
Qed.

Lemma command_body_add (today : date.t) (name phone : str) (w : world) :
  AddressBook.find name (book w) = None ->
  name <> [] ->
  (forall p, Phone.init phone <> Ok p) ->
  command_body today (lit "add") [name; phone] w
  = (Raise (ValueError (lit "Phone must contain exactly 10 digits")),
     mk_world (book w ++ [(name, Record.mk (Name.mk name) [] None)])
              (files w) (shown w)).
Proof.
  intros Hfind Hname Hbad.
  assert (Hphone : Phone.init phone
                   = Raise (ValueError (lit "Phone must contain exactly 10 digits"))).
  { rewrite Phone_init_ten_digits in *.
    destruct (ten_unicode_digits phone); [| reflexivity].
    now destruct (Hbad (Phone.mk phone)). }
  unfold command_body.
  change (str_eqb (lit "add") (lit "exit")) with false.
  change (str_eqb (lit "add") (lit "close")) with false.
  change (str_eqb (lit "add") (lit "hello")) with false.
  change (str_eqb (lit "add") (lit "add")) with true.
  cbn [orb].
  unfold bind, lift, get, ret, unpack2. rewrite Hfind.
  rewrite (Record_init_nonempty name Hname).
  unfold on_book, AddressBook.add_record, modify. cbn [book files shown].
  cbn [Record.name Name.value].
  rewrite (setitem_fresh _ _ _ Hfind).
  unfold on_record, on_book, Record.add_phone, bind, lift. cbn [book files shown].
  rewrite Hphone. now rewrite (in_place_last _ _ _ _ Hfind).
Qed.

Lemma find_app_last (key : str) (record : Record.t) (data : AddressBook.t) :
  AddressBook.find key data = None ->
  AddressBook.find key (data ++ [(key, record)]) = Some record.
Proof.
  induction data as [| [k r] data IH]; cbn.
  - unfold str_eqb. now rewrite bool_decide_eq_true_2.
  - destruct (str_eqb k key); [discriminate | exact IH].
Qed.

(** What the [except] clause does with an exception of the [try] body. *)
Lemma main_iteration_catches (today : date.t) (line command : str)
      (args : list str) (w w' : world) (e : exn) :
  parse_input line = Ok (command, args) ->
  command_body today command args w = (Raise e, w') ->
  main_iteration today line w
  = (Continue,
     mk_world (book w') (files w') (shown w' ++ [lit "Error: " ++ exn_message e])).
Proof.
  intros Hparse Hbody. unfold main_iteration. now rewrite Hparse, Hbody.
Qed.

(** The branch of exit and close: the book is saved first, and a save that
    raises leaves the branch before the farewell and the [break]. *)
Lemma exit_branch (w : world) :
  (let! w0 := get in
   let! _ := on_files (save_data (book w0) default_filename) in
   let! _ := show_message (lit "Good bye!") in
   ret true) w
  = match save_data (book w) default_filename (files w) with
    | (Ok _, fs) => (Ok true, mk_world (book w) fs (shown w ++ [lit "Good bye!"]))
    | (Raise e, fs) => (Raise e, mk_world (book w) fs (shown w))
    end.
Proof.
  unfold bind, get, on_files.
  now destruct (save_data (book w) default_filename (files w)) as [[[] | e] fs].
Qed.

(** A line with a word on it never ends the loop with an exception. *)
Lemma main_iteration_with_command (today : date.t) (line : str) (w : world) :
  split line <> [] ->
  exists w', main_iteration today line w = (Continue, w')
             \/ main_iteration today line w = (Break, w').
Proof.
  intros Hs. unfold main_iteration, parse_input.
  destruct (split line) as [| first rest]; [congruence |].
  destruct (command_body today (str_lower first) rest w) as [[[] | e] w'];
    eauto.
Qed.

(** C10: the add command with a name that the book does not hold and a phone
    that [Phone] refuses shows the error of [Phone], and leaves the book with
    a record under that name that has no phone and no birthday. The record is
    in the book because [add_record] has put it there before [add_phone]
    validates the phone: [Record] makes it, [add_record] appends it to the
    book, and [add_phone] then raises and leaves the book as [add_record]
    made it; [add_phone] on a record that the book does not hold raises the
    same and leaves the book without the name. *)
Theorem add_invalid_phone_keeps_new_record
        (today : date.t) (line name phone : str) (w : world) :
  parse_input line = Ok (lit "add", [name; phone]) ->
  AddressBook.find name (book w) = None ->
  (forall p, Phone.init phone <> Ok p) ->
  let added := Record.mk (Name.mk name) [] None in
  let refused := ValueError (lit "Phone must contain exactly 10 digits") in
  let inserted := mk_world (book w ++ [(name, added)]) (files w) (shown w) in
  main_iteration today line w
  = (Continue,
     mk_world (book w ++ [(name, added)]) (files w)
              (shown w ++ [lit "Error: Phone must contain exactly 10 digits"]))
  /\ AddressBook.find name (book w ++ [(name, added)]) = Some added
  /\ Record.phones added = [] /\ Record.birthday added = None
  /\ Record.init name = Ok added
  /\ on_book (AddressBook.add_record added) w = (Ok tt, inserted)
  /\ on_record name added (Record.add_phone phone) inserted
     = (Raise refused, inserted)
  /\ on_record name added (Record.add_phone phone) w = (Raise refused, w)
  /\ command_body today (lit "add") [name; phone] w = (Raise refused, inserted).
Proof.
  intros Hparse Hfind Hbad added refused inserted.
  assert (Hname : name <> []).
  { pose proof (parse_input_args_nonempty _ _ _ Hparse) as Hargs.
    now inversion Hargs. }
  assert (Hphone : Phone.init phone = Raise refused).
  { rewrite Phone_init_ten_digits in *.
    destruct (ten_unicode_digits phone); [| reflexivity].
    now destruct (Hbad (Phone.mk phone)). }
  split; [| split; [| split; [| split; [| split; [| split; [| split;
    [| split]]]]]]].
  - rewrite (main_iteration_catches today line _ _ w _ _ Hparse
               (command_body_add today name phone w Hfind Hname Hbad)).
    reflexivity.
  - now apply find_app_last.
  - reflexivity.
  - reflexivity.
  - now apply Record_init_nonempty.
  - unfold on_book, AddressBook.add_record, modify.
    cbn [Record.name Name.value added].
    now rewrite (setitem_fresh _ _ _ Hfind).
  - unfold on_record, on_book, Record.add_phone, bind, lift.
    rewrite Hphone. cbn [inserted book files shown].
    now rewrite (in_place_last _ _ _ _ Hfind).
  - unfold on_record, on_book, Record.add_phone, bind, lift.
    rewrite Hphone. rewrite (in_place_absent _ _ _ Hfind). now destruct w.
  - apply (command_body_add today name phone w Hfind Hname Hbad).
Qed.

(** C8 fails on a blank line: [parse_input] raises IndexError on a line
    without a word, empty or of whitespace only, before the [try] statement is
    entered; the exception leaves [main], and the loop with it. *)
Theorem blank_line_leaves_main
        (today : date.t) (line : str) (w : world) (rest : list (date.t * str)) :
  forallb isspace_char line = true ->
  main_iteration today line w
  = (Crash (IndexError (lit "list index out of range")), w)
  /\ main_loop ((today, line) :: rest) w
     = (Some (IndexError (lit "list index out of range")), w).
Proof.
  intros Hblank.
  assert (Hstep : main_iteration today line w
                  = (Crash (IndexError (lit "list index out of range")), w)).
  { unfold main_iteration, parse_input. now rewrite (split_whitespace line Hblank). }
  split; [exact Hstep |].
  cbn [main_loop]. now rewrite Hstep.
Qed.

(** ** Persistence *)





(** A file that does not exist loads as the empty book. *)
Lemma load_data_missing (filename : str) (fs : filesystem) :
  fs !! filename = None -> load_data filename fs = Ok AddressBook.empty.
Proof. unfold load_data, read_file. now intros ->. Qed.

(** What [open] refuses for another reason than a missing file leaves
    [load_data]. *)
Lemma load_data_unavailable (filename : str) (fs : filesystem) (msg : str) :
  fs !! filename = Some (Unavailable (OSError msg)) ->
  load_data filename fs = Raise (OSError msg).
Proof. unfold load_data, read_file. now intros ->. Qed.

End Loop.

(** ** The serialiser of the reference runtime reads back what it wrote *)








(** ** The theorems of the loop on the reference runtime *)

Lemma add_invalid_phone_keeps_new_record_witness :
  let w := @mk_world Codec.runtime [] ∅ [] in
  let added := Record.mk (Name.mk (lit "Bob")) [] None in
  let refused := ValueError (lit "Phone must contain exactly 10 digits") in
  let inserted := @mk_world Codec.runtime [(lit "Bob", added)] ∅ [] in
  main_iteration (date.mk 2024 6 10) (lit "add Bob 12345") w
  = (Continue,
     mk_world [(lit "Bob", added)] ∅
              [lit "Error: Phone must contain exactly 10 digits"])
  /\ AddressBook.find (lit "Bob") [(lit "Bob", added)] = Some added
  /\ Record.phones added = [] /\ Record.birthday added = None
  /\ Record.init (lit "Bob") = Ok added
  /\ on_book (AddressBook.add_record added) w = (Ok tt, inserted)
  /\ on_record (lit "Bob") added (Record.add_phone (lit "12345")) inserted
     = (Raise refused, inserted)
  /\ on_record (lit "Bob") added (Record.add_phone (lit "12345")) w
     = (Raise refused, w)
  /\ command_body (date.mk 2024 6 10) (lit "add") [lit "Bob"; lit "12345"] w
     = (Raise refused, inserted).
Proof.
  intros w added refused inserted.
  apply (@add_invalid_phone_keeps_new_record Codec.runtime
           (date.mk 2024 6 10) (lit "add Bob 12345") (lit "Bob") (lit "12345") w).
  - reflexivity.
  - reflexivity.
  - intros p. rewrite Phone_init_ten_digits. vm_compute. discriminate.
Defined.

Lemma blank_line_leaves_main_witness :
  let w := @mk_world Codec.runtime [] ∅ [] in
  let today := date.mk 2024 6 10 in
  (main_iteration today (lit "") w
   = (Crash (IndexError (lit "list index out of range")), w)
   /\ main_loop [(today, lit ""); (today, lit "hello")] w
      = (Some (IndexError (lit "list index out of range")), w))
  /\ (main_iteration today (lit "   ") w
      = (Crash (IndexError (lit "list index out of range")), w)
      /\ main_loop [(today, lit "   ")] w
         = (Some (IndexError (lit "list index out of range")), w)).
Proof.
  intros w today. split.
  - apply (@blank_line_leaves_main Codec.runtime today (lit "") w
             [(today, lit "hello")]).
    reflexivity.
  - apply (@blank_line_leaves_main Codec.runtime today (lit "   ") w []).
    reflexivity.
Defined.

(** ** Calendar arithmetic *)

#[global] Arguments date.is_leap : simpl never.

Lemma month_cases (m : Z) :
  1 <= m <= 12 ->
  m = 1 \/ m = 2 \/ m = 3 \/ m = 4 \/ m = 5 \/ m = 6 \/ m = 7 \/ m = 8
  \/ m = 9 \/ m = 10 \/ m = 11 \/ m = 12.
Proof. lia. Qed.

Ltac each_month m H :=
  destruct (month_cases m H) as
    [-> | [-> | [-> | [-> | [-> | [-> | [-> | [-> | [-> | [-> | [-> | ->]]]]]]]]]]].

Lemma date_new_ok (y m d : Z) (x : date.t) :
  date.new y m d = Ok x -> x = date.mk y m d /\ date.valid x.
Proof.
  unfold date.new, date.valid, date.MINYEAR, date.MAXYEAR.
  destruct ((1 <=? y) && (y <=? 9999)) eqn:Hy; [| discriminate].
  destruct ((1 <=? m) && (m <=? 12)) eqn:Hm; [| discriminate].
  destruct ((1 <=? d) && (d <=? date.days_in_month y m)) eqn:Hd; [| discriminate].
  cbn [negb]. intros [= <-]. cbn [date.year date.month date.day].
  split; [reflexivity | lia].
Qed.

Lemma date_new_valid (y m d : Z) :
  date.valid (date.mk y m d) -> date.new y m d = Ok (date.mk y m d).
Proof.
  unfold date.new, date.valid, date.MINYEAR, date.MAXYEAR.
  cbn [date.year date.month date.day]. intros (Hy & Hm & Hd).
  replace ((1 <=? y) && (y <=? 9999)) with true by lia.
  replace ((1 <=? m) && (m <=? 12)) with true by lia.
  now replace ((1 <=? d) && (d <=? date.days_in_month y m)) with true by lia.
Qed.

Lemma days_in_month_bounds (y m : Z) : 28 <= date.days_in_month y m <= 31.
Proof.
  unfold date.days_in_month.
  destruct (m =? 2); [destruct (date.is_leap y); lia |].
  destruct ((m =? 4) || (m =? 6) || (m =? 9) || (m =? 11)); lia.
Qed.

Lemma days_before_next_month (y m : Z) :
  1 <= m <= 11 ->
  date.days_before_month y (m + 1)
  = date.days_before_month y m + date.days_in_month y m.
Proof.
  intros Hm. assert (Hm' : 1 <= m <= 12) by lia.
  each_month m Hm'; try lia;
    unfold date.days_before_month, date.days_in_month; simpl;
    destruct (date.is_leap y); reflexivity.
Qed.

Lemma days_before_next_year (y : Z) :
  date.days_before_year (y + 1)
  = date.days_before_year y + date.days_before_month y 12 + 31.
Proof.
  unfold date.days_before_year, date.days_before_month, date.is_leap. simpl.
  replace (y + 1 - 1) with y by lia.
  destruct (Z.eqb_spec (y mod 4) 0), (Z.eqb_spec (y mod 100) 0),
    (Z.eqb_spec (y mod 400) 0); cbn [negb andb orb];
    Z.div_mod_to_equations; lia.
Qed.

Lemma next_day_ordinal (d d' : date.t) :
  date.valid d -> date.next_day d = Ok d' ->
  date.valid d' /\ date.toordinal d' = date.toordinal d + 1.
Proof.
  destruct d as [y m dd]. unfold date.valid, date.next_day, date.toordinal,
    date.MINYEAR, date.MAXYEAR. cbn [date.year date.month date.day].
  intros (Hy & Hm & Hd).
  destruct (Z.ltb_spec dd (date.days_in_month y m)) as [Hlt | Hge].
  - intros [= <-]. cbn [date.year date.month date.day]. lia.
  - destruct (Z.ltb_spec m 12) as [Hm12 | Hm12].
    + intros [= <-]. cbn [date.year date.month date.day].
      rewrite days_before_next_month by lia.
      pose proof (days_in_month_bounds y (m + 1)). lia.
    + destruct (Z.ltb_spec y 9999) as [Hy9 | Hy9]; [| discriminate].
      intros [= <-]. cbn [date.year date.month date.day].
      rewrite days_before_next_year.
      assert (m = 12) as -> by lia.
      change (date.days_in_month y 12) with 31 in *.
      change (date.days_in_month (y + 1) 1) with 31.
      change (date.days_before_month (y + 1) 1) with 0.
      lia.
Qed.

Lemma next_day_last (d : date.t) (e : exn) :
  date.valid d -> date.next_day d = Raise e -> d = date.mk 9999 12 31.
Proof.
  destruct d as [y m dd]. unfold date.valid, date.next_day,
    date.MINYEAR, date.MAXYEAR. cbn [date.year date.month date.day].
  intros (Hy & Hm & Hd).
  destruct (Z.ltb_spec dd (date.days_in_month y m)); [discriminate |].
  destruct (Z.ltb_spec m 12); [discriminate |].
  destruct (Z.ltb_spec y 9999); [discriminate |].
  intros _. assert (m = 12) as -> by lia.
  change (date.days_in_month y 12) with 31 in *.
  f_equal; lia.
Qed.

(** A day that is not a Friday has a next day. *)
Lemma next_day_defined (d : date.t) :
  date.valid d -> date.weekday d <> 4 ->
  exists d', date.next_day d = Ok d' /\ date.valid d'
             /\ date.toordinal d' = date.toordinal d + 1.
Proof.
  intros Hv Hw. destruct (date.next_day d) as [d' | e] eqn:Hn.
  - exists d'. split; [reflexivity |]. now apply next_day_ordinal.
  - apply next_day_last in Hn; [| exact Hv]. subst d. now destruct Hw.
Qed.

Lemma saturday_plus_two (d : date.t) :
  date.valid d -> date.weekday d = Saturday ->
  exists d', date.add_days d 2 = Ok d' /\ date.valid d'
             /\ date.toordinal d' = date.toordinal d + 2
             /\ date.weekday d' = Monday.
Proof.
  unfold Saturday, Monday. intros Hv Hw.
  destruct (next_day_defined d Hv) as (d1 & H1 & Hv1 & Ho1); [lia |].
  assert (Hw1 : date.weekday d1 = 6).
  { unfold date.weekday in *. rewrite Ho1. Z.div_mod_to_equations. lia. }
  destruct (next_day_defined d1 Hv1) as (d2 & H2 & Hv2 & Ho2); [lia |].
  exists d2. cbn [date.add_days]. rewrite H1. cbn [res_bind]. rewrite H2.
  repeat split; [apply Hv2.. | lia |].
  unfold date.weekday in *. rewrite Ho2, Ho1. Z.div_mod_to_equations. lia.
Qed.

Lemma sunday_plus_one (d : date.t) :
  date.valid d -> date.weekday d = Sunday ->
  exists d', date.add_days d 1 = Ok d' /\ date.valid d'
             /\ date.toordinal d' = date.toordinal d + 1
             /\ date.weekday d' = Monday.
Proof.
  unfold Sunday, Monday. intros Hv Hw.
  destruct (next_day_defined d Hv) as (d1 & H1 & Hv1 & Ho1); [lia |].
  exists d1. cbn [date.add_days]. rewrite H1.
  repeat split; [apply Hv1.. | lia |].
  unfold date.weekday in *. rewrite Ho1. Z.div_mod_to_equations. lia.
Qed.

(** ** get_upcoming_birthdays *)

Lemma occurrence_valid (born today occ : date.t) :
  occurrence born today = Ok occ -> date.valid occ.
Proof.
  unfold occurrence, date.replace_year.
  destruct (date.new (date.year today) (date.month born) (date.day born))
    as [this_year |] eqn:Hthis; [| discriminate].
  cbn [res_bind]. destruct (date.lt this_year today).
  - intros H. now apply date_new_ok in H.
  - intros [= <-]. now apply date_new_ok in Hthis.
Qed.

(** The dates that the loop computes are the occurrence. *)
Lemma occurrence_as_computed (born today : date.t) :
  (let? bday := date.replace_year born (date.year today) in
   if date.lt bday today
   then date.replace_year bday (date.year today + 1)
   else Ok bday)
  = occurrence born today.
Proof.
  unfold occurrence, date.replace_year.
  destruct (date.new (date.year today) (date.month born) (date.day born))
    as [this_year |] eqn:Hthis; [| reflexivity].
  cbn [res_bind]. apply date_new_ok in Hthis as [-> _].
  reflexivity.
Qed.

Lemma congratulated_on_computed (occ : date.t) :
  date.valid occ ->
  exists congr,
    (if date.weekday occ =? 5 then date.add_days occ 2
     else if date.weekday occ =? 6 then date.add_days occ 1
     else Ok occ) = Ok congr
    /\ congratulated_on occ congr.
Proof.
  intros Hv. unfold congratulated_on.
  destruct (Z.eqb_spec (date.weekday occ) 5) as [H5 | H5].
  - destruct (saturday_plus_two occ Hv H5) as (d' & Hadd & Hv' & Ho & Hw).
    exists d'. split; [exact Hadd |]. split; [exact Hv' |].
    unfold Saturday, Sunday. repeat split; intros; (assumption || lia).
  - destruct (Z.eqb_spec (date.weekday occ) 6) as [H6 | H6].
    + destruct (sunday_plus_one occ Hv H6) as (d' & Hadd & Hv' & Ho & Hw).
      exists d'. split; [exact Hadd |]. split; [exact Hv' |].
      unfold Saturday, Sunday. repeat split; intros; (assumption || lia).
    + exists occ. split; [reflexivity |]. split; [exact Hv |].
      unfold Saturday, Sunday. repeat split; intros; (reflexivity || lia).
Qed.

Lemma upcoming_step_no_birthday (days : Z) (today : date.t)
      (record : Record.t) (result : list AddressBook.entry) :
  Record.birthday record = None ->
  AddressBook.upcoming_step days today record result = Ok result.
Proof. unfold AddressBook.upcoming_step. now intros ->. Qed.

Lemma upcoming_step_birthday (days : Z) (today occ : date.t)
      (record : Record.t) (result : list AddressBook.entry) :
  has_occurrence record today occ ->
  (in_window occ today days ->
   exists e, selects days today record e
             /\ AddressBook.upcoming_step days today record result
                = Ok (result ++ [e]))
  /\ (~ in_window occ today days ->
      AddressBook.upcoming_step days today record result = Ok result).
Proof.
  intros Hocc. pose proof Hocc as (birthday & born & Hb & Hborn & Ho).
  unfold AddressBook.upcoming_step. rewrite Hb, Hborn. cbn [res_bind].
  pose proof (occurrence_as_computed born today) as Hc.
  destruct (date.replace_year born (date.year today)) as [bday |] eqn:Hthis.
  2:{ unfold occurrence in Ho. rewrite Hthis in Ho. discriminate. }
  cbn [res_bind] in Hc |- *. rewrite Hc, Ho. cbn [res_bind].
  unfold in_window. split.
  - intros [Hlo Hhi].
    replace ((0 <=? date.sub_days occ today) && (date.sub_days occ today <=? days))
      with true by lia.
    destruct (congratulated_on_computed occ (occurrence_valid _ _ _ Ho))
      as (congr & -> & Hcongr).
    cbn [res_bind]. eexists. split; [| reflexivity].
    exists occ, congr.
    split; [exact Hocc |]. split; [split; assumption |].
    split; [exact Hcongr | reflexivity].
  - intros Hout.
    replace ((0 <=? date.sub_days occ today) && (date.sub_days occ today <=? days))
      with false by lia.
    reflexivity.
Qed.

Lemma has_occurrence_unique (record : Record.t) (today occ occ' : date.t) :
  has_occurrence record today occ -> has_occurrence record today occ' ->
  occ = occ'.
Proof.
  intros (b & born & Hb & Hborn & Ho) (b' & born' & Hb' & Hborn' & Ho').
  congruence.
Qed.

Lemma in_window_dec (occ today : date.t) (days : Z) :
  {in_window occ today days} + {~ in_window occ today days}.
Proof.
  unfold in_window.
  destruct (Z_le_dec 0 (date.sub_days occ today));
    destruct (Z_le_dec (date.sub_days occ today) days);
    (left; lia) || (right; lia).
Qed.

(** The loop adds to [result] the elements that the records account for, and
    nothing else. *)
Lemma upcoming_loop_selects (days : Z) (today : date.t) (records : list Record.t) :
  occurrences_exist records today ->
  forall result,
  exists added,
    AddressBook.upcoming_loop days today records result = Ok (result ++ added)
    /\ (forall e, In e added ->
                  exists record, In record records /\ selects days today record e)
    /\ (forall record occ,
          In record records -> has_occurrence record today occ ->
          in_window occ today days ->
          exists e, In e added /\ selects days today record e).
Proof.
  induction records as [| r records IH]; intros Hex result.
  - exists []. cbn. rewrite app_nil_r. repeat split; intros; contradiction.
  - assert (Hex' : occurrences_exist records today).
    { intros record b Hin. apply Hex. now right. }
    cbn [AddressBook.upcoming_loop].
    destruct (Record.birthday r) as [b |] eqn:Hb.
    + destruct (Hex r b (or_introl eq_refl) Hb) as (born & occ & Hborn & Ho).
      assert (Hocc : has_occurrence r today occ) by (now exists b, born).
      destruct (upcoming_step_birthday days today occ r result Hocc) as [Hin Hout].
      destruct (in_window_dec occ today days) as [Hw | Hw].
      * destruct (Hin Hw) as (e & Hsel & ->). cbn [res_bind].
        destruct (IH Hex' (result ++ [e])) as (added & -> & Hsound & Hcomplete).
        exists (e :: added). rewrite <- app_assoc. split; [reflexivity |]. split.
        -- intros e' [<- | He'].
           ++ exists r. split; [now left | exact Hsel].
           ++ destruct (Hsound e' He') as (r' & Hr' & Hsel'). exists r'.
              split; [now right | exact Hsel'].
        -- intros r' occ' [<- | Hr'] Hocc' Hw'.
           ++ exists e. split; [now left | exact Hsel].
           ++ destruct (Hcomplete r' occ' Hr' Hocc' Hw') as (e' & He' & Hsel').
              exists e'. split; [now right | exact Hsel'].
      * rewrite (Hout Hw). cbn [res_bind].
        destruct (IH Hex' result) as (added & -> & Hsound & Hcomplete).
        exists added. split; [reflexivity |]. split.
        -- intros e' He'. destruct (Hsound e' He') as (r' & Hr' & Hsel').
           exists r'. split; [now right | exact Hsel'].
        -- intros r' occ' [<- | Hr'] Hocc' Hw'.
           ++ now rewrite (has_occurrence_unique _ _ _ _ Hocc' Hocc) in Hw'.
           ++ now apply (Hcomplete r' occ').
    + rewrite (upcoming_step_no_birthday days today r result Hb). cbn [res_bind].
      destruct (IH Hex' result) as (added & -> & Hsound & Hcomplete).
      exists added. split; [reflexivity |]. split.
      * intros e' He'. destruct (Hsound e' He') as (r' & Hr' & Hsel').
        exists r'. split; [now right | exact Hsel'].
      * intros r' occ' [<- | Hr'] Hocc' Hw'.
        -- destruct Hocc' as (b' & ? & Hb' & _). congruence.
        -- now apply (Hcomplete r' occ').
Qed.

Lemma wf_book_same_name (b : AddressBook.t) (k1 k2 : str) (r1 r2 : Record.t) :
  wf_book b -> In (k1, r1) b -> In (k2, r2) b ->
  Name.value (Record.name r1) = Name.value (Record.name r2) -> r1 = r2.
Proof.
  intros [Hnodup Hkeys] H1 H2 Hname.
  assert (Hk : k1 = k2).
  { rewrite List.Forall_forall in Hkeys.
    pose proof (Hkeys _ H1) as E1. pose proof (Hkeys _ H2) as E2.
    cbn in E1, E2. congruence. }
  subst k2. clear Hkeys Hname.
  induction b as [| [k r] b IH]; [destruct H1 |].
  cbn in Hnodup. apply NoDup_cons in Hnodup as [Hnotin Hnodup].
  assert (Hfresh : forall r', In (k1, r') b -> k <> k1).
  { intros r' Hin ->. apply Hnotin. apply list_elem_of_In.
    change k1 with (fst (k1, r')). now apply in_map. }
  destruct H1 as [E1 | H1], H2 as [E2 | H2].
  - congruence.
  - injection E1 as -> _. now destruct (Hfresh r2 H2).
  - injection E2 as -> _. now destruct (Hfresh r1 H1).
  - now apply IH.
Qed.

(** C1: when the occurrence of every birthday of the book can be computed,
    [get_upcoming_birthdays] returns, and the name of a record of the book is
    in the result exactly when the record has a birthday whose occurrence,
    this year's or next year's when this year's has passed, is between 0 and
    [days] days after today, both included. A record without a birthday is
    not in the result. *)
Theorem upcoming_birthdays_window
        (book : AddressBook.t) (days : Z) (today : date.t) :
  wf_book book ->
  occurrences_exist (AddressBook.values book) today ->
  exists result,
    AddressBook.get_upcoming_birthdays days today book = Ok result
    /\ forall key record,
         In (key, record) book ->
         (In (Name.value (Record.name record)) (map AddressBook.name result)
          <-> exists occ, has_occurrence record today occ
                          /\ 0 <= date.sub_days occ today <= days)
         /\ (Record.birthday record = None ->
             ~ In (Name.value (Record.name record)) (map AddressBook.name result)).
Proof.
  intros Hwf Hex. unfold AddressBook.get_upcoming_birthdays.
  destruct (upcoming_loop_selects days today _ Hex [])
    as (result & Hrun & Hsound & Hcomplete).
  exists result. split; [exact Hrun |].
  intros key record Hin.
  assert (Hiff : In (Name.value (Record.name record)) (map AddressBook.name result)
                 <-> exists occ, has_occurrence record today occ
                                 /\ 0 <= date.sub_days occ today <= days).
  { split.
    - intros Hname. apply in_map_iff in Hname as (e & He & Hine).
      destruct (Hsound e Hine) as (r' & Hr' & occ & congr & Hocc & Hw & _ & ->).
      apply in_map_iff in Hr' as ([k' r''] & <- & Hin').
      cbn [AddressBook.name snd] in *.
      rewrite (wf_book_same_name book key k' record r'' Hwf Hin Hin' (eq_sym He)).
      now exists occ.
    - intros (occ & Hocc & Hw).
      destruct (Hcomplete record occ) as (e & He & _ & congr & _ & _ & _ & ->);
        [| exact Hocc | exact Hw |].
      + apply in_map_iff. now exists (key, record).
      + apply in_map_iff. eexists. split; [| exact He]. reflexivity. }
  split; [exact Hiff |].
  intros Hnone Hname. apply Hiff in Hname as (occ & (b & ? & Hb & _) & _).
  congruence.
Qed.

Lemma upcoming_birthdays_window_witness :
  let ann := Record.mk (Name.mk (lit "Ann")) [] (Some (Birthday.mk (lit "12.06.1990"))) in
  let bob := Record.mk (Name.mk (lit "Bob")) [] (Some (Birthday.mk (lit "20.06.1985"))) in
  let cid := Record.mk (Name.mk (lit "Cid")) [Phone.mk (lit "0123456789")] None in
  let book := [(lit "Ann", ann); (lit "Bob", bob); (lit "Cid", cid)] in
  let today := date.mk 2024 6 10 in
  exists result,
    AddressBook.get_upcoming_birthdays 7 today book = Ok result
    /\ forall key record,
         In (key, record) book ->
         (In (Name.value (Record.name record)) (map AddressBook.name result)
          <-> exists occ, has_occurrence record today occ
                          /\ 0 <= date.sub_days occ today <= 7)
         /\ (Record.birthday record = None ->
             ~ In (Name.value (Record.name record)) (map AddressBook.name result)).
Proof.
  intros ann bob cid book today.
  apply (upcoming_birthdays_window book 7 today).
  - split.
    + apply (bool_decide_unpack _). vm_compute. exact I.
    + repeat constructor.
  - intros record birthday Hin Hb.
    destruct Hin as [<- | [<- | [<- | []]]]; cbn in Hb; try discriminate;
      injection Hb as <-; eexists; eexists; split; vm_compute; reflexivity.
Defined.

(** The examples of the specification: with today = 10.06.2024, the birthday
    12.06.1990 is reported on 12.06.2024, and the birthday 20.06, ten days
    ahead, is left out. *)
Example upcoming_birthdays_example :
  let ann := Record.mk (Name.mk (lit "Ann")) [] (Some (Birthday.mk (lit "12.06.1990"))) in
  let bob := Record.mk (Name.mk (lit "Bob")) [] (Some (Birthday.mk (lit "20.06.1985"))) in
  AddressBook.get_upcoming_birthdays 7 (date.mk 2024 6 10)
    [(lit "Ann", ann); (lit "Bob", bob)]
  = Ok [AddressBook.mk_entry (lit "Ann") (lit "12.06.2024")].
Proof. vm_compute. reflexivity. Qed.

(** A birthday on today and one exactly [days] days ahead are reported, one a
    day further is not. *)
Example upcoming_birthdays_bounds :
  let on d := Record.mk (Name.mk d) [] (Some (Birthday.mk d)) in
  AddressBook.get_upcoming_birthdays 7 (date.mk 2024 6 10)
    [(lit "10.06.2000", on (lit "10.06.2000"));
     (lit "17.06.2000", on (lit "17.06.2000"));
     (lit "18.06.2000", on (lit "18.06.2000"));
     (lit "09.06.2000", on (lit "09.06.2000"))]
  = Ok [AddressBook.mk_entry (lit "10.06.2000") (lit "10.06.2024");
        AddressBook.mk_entry (lit "17.06.2000") (lit "17.06.2024")].
Proof. vm_compute. reflexivity. Qed.

(** C2: a record whose occurrence is in the window is in the result with the
    day of its congratulation: two days after the occurrence when that is a
    Saturday, one day after when it is a Sunday, a Monday in both cases, and
    the occurrence itself otherwise. Nothing compares the day of
    congratulation with the window. *)
Theorem weekend_birthday_moves_to_monday
        (book : AddressBook.t) (days : Z) (today : date.t)
        (key : str) (record : Record.t) (occ : date.t) :
  wf_book book ->
  occurrences_exist (AddressBook.values book) today ->
  In (key, record) book ->
  has_occurrence record today occ ->
  0 <= date.sub_days occ today <= days ->
  exists result congr,
    AddressBook.get_upcoming_birthdays days today book = Ok result
    /\ In (AddressBook.mk_entry (Name.value (Record.name record))
                                (date.strftime congr)) result
    /\ congratulated_on occ congr.
Proof.
  intros Hwf Hex Hin Hocc Hw. unfold AddressBook.get_upcoming_birthdays.
  destruct (upcoming_loop_selects days today _ Hex [])
    as (result & Hrun & _ & Hcomplete).
  destruct (Hcomplete record occ) as (e & He & occ' & congr & Hocc' & _ & Hcongr & ->);
    [| exact Hocc | exact Hw |].
  { apply in_map_iff. now exists (key, record). }
  rewrite (has_occurrence_unique _ _ _ _ Hocc Hocc').
  now exists result, congr.
Qed.

Lemma weekend_birthday_moves_to_monday_witness :
  let bob := Record.mk (Name.mk (lit "Bob")) [] (Some (Birthday.mk (lit "15.06.1990"))) in
  let book := [(lit "Bob", bob)] in
  let today := date.mk 2024 6 10 in
  date.weekday (date.mk 2024 6 15) = Saturday
  /\ exists result congr,
       AddressBook.get_upcoming_birthdays 7 today book = Ok result
       /\ In (AddressBook.mk_entry (lit "Bob") (date.strftime congr)) result
       /\ congratulated_on (date.mk 2024 6 15) congr
       /\ date.strftime congr = lit "17.06.2024".
Proof.
  intros bob book today. split; [reflexivity |].
  destruct (weekend_birthday_moves_to_monday book 7 today (lit "Bob") bob
              (date.mk 2024 6 15))
    as (result & congr & Hrun & Hin & Hcongr).
  - split.
    + apply (bool_decide_unpack _). vm_compute. exact I.
    + repeat constructor.
  - intros record birthday [<- | []] Hb. injection Hb as <-.
    eexists; eexists; split; vm_compute; reflexivity.
  - now left.
  - exists (Birthday.mk (lit "15.06.1990")), (date.mk 1990 6 15).
    repeat split; vm_compute; reflexivity.
  - vm_compute. split; discriminate.
  - exists result, congr.
    split; [exact Hrun |]. split; [exact Hin |]. split; [exact Hcongr |].
    assert (Hresult : AddressBook.get_upcoming_birthdays 7 today book
                      = Ok [AddressBook.mk_entry (lit "Bob") (lit "17.06.2024")])
      by (vm_compute; reflexivity).
    rewrite Hresult in Hrun. injection Hrun as <-.
    destruct Hin as [E | []]. injection E as E'. symmetry. exact E'.
Defined.

(** The example of the specification: with today = 10.06.2024, a birthday
    that falls on Saturday 15.06.2024 is congratulated on 17.06.2024. *)
Example saturday_birthday_example :
  let bob := Record.mk (Name.mk (lit "Bob")) [] (Some (Birthday.mk (lit "15.06.1990"))) in
  AddressBook.get_upcoming_birthdays 7 (date.mk 2024 6 10) [(lit "Bob", bob)]
  = Ok [AddressBook.mk_entry (lit "Bob") (lit "17.06.2024")].
Proof. vm_compute. reflexivity. Qed.

(** The day of congratulation can be outside the window: on Sunday 09.06.2024
    a birthday on Sunday 16.06, seven days ahead, is congratulated on
    17.06.2024, eight days ahead. *)
Example congratulation_after_window :
  let bob := Record.mk (Name.mk (lit "Bob")) [] (Some (Birthday.mk (lit "16.06.1990"))) in
  let today := date.mk 2024 6 9 in
  AddressBook.get_upcoming_birthdays 7 today [(lit "Bob", bob)]
  = Ok [AddressBook.mk_entry (lit "Bob") (lit "17.06.2024")]
  /\ date.sub_days (date.mk 2024 6 16) today = 7
  /\ date.sub_days (date.mk 2024 6 17) today = 8.
Proof. vm_compute. repeat split. Qed.

(** C3 fails on a birthday of 29 February: [Birthday] takes "29.02.2000", and
    in a year that is no leap year [replace(year=today.year)] raises
    ValueError, which leaves [get_upcoming_birthdays]. *)
Theorem leap_day_birthday_raises :
  let ann := Record.mk (Name.mk (lit "Ann")) [] (Some (Birthday.mk (lit "29.02.2000"))) in
  Birthday.init (lit "29.02.2000") = Ok (Birthday.mk (lit "29.02.2000"))
  /\ AddressBook.get_upcoming_birthdays 7 (date.mk 2023 6 10) [(lit "Ann", ann)]
     = Raise (ValueError (lit "day is out of range for month")).
Proof. vm_compute. split; reflexivity. Qed.

(** The same in a leap year, once 29 February has passed: the roll forward
    to the next year raises. *)
Example leap_day_after_february_raises :
  let ann := Record.mk (Name.mk (lit "Ann")) [] (Some (Birthday.mk (lit "29.02.2000"))) in
  AddressBook.get_upcoming_birthdays 7 (date.mk 2024 3 1) [(lit "Ann", ann)]
  = Raise (ValueError (lit "day is out of range for month")).
Proof. vm_compute. reflexivity. Qed.

(** ** The regular expression of the format *)

(** The matcher finds exactly the prefixes that are words of the expression. *)
Lemma re_match_spec (r : regex) :
  forall (s t rest : str),
    In (t, rest) (re_match r s) <-> s = t ++ rest /\ re_lang r t.
Proof.
  induction r as [p | r1 IH1 r2 IH2 | r1 IH1 r2 IH2]; intros s t rest;
    cbn [re_match re_lang].
  - destruct s as [| c s'].
    + split; [intros [] |]. intros (Hs & c & -> & _). discriminate.
    + destruct (p c) eqn:Hp; split.
      * intros [[= <- <-] | []]. split; [reflexivity |]. now exists c.
      * intros (Hs & c' & -> & Hp'). injection Hs as <- <-. now left.
      * intros [].
      * intros (Hs & c' & -> & Hp'). injection Hs as <- <-. congruence.
  - rewrite in_flat_map. split.
    + intros ([t1 s1] & H1 & H2). apply in_map_iff in H2 as ([t2 s2] & [= <- <-] & H2).
      apply IH1 in H1 as [-> L1]. apply IH2 in H2 as [E2 L2].
      cbn [fst snd] in *. subst s1. split; [now rewrite <- app_assoc |].
      now exists t1, t2.
    + intros (-> & t1 & t2 & -> & L1 & L2).
      exists (t1, t2 ++ rest). split.
      * apply IH1. split; [now rewrite <- app_assoc | exact L1].
      * apply in_map_iff. exists (t2, rest). split; [reflexivity |].
        apply IH2. cbn [snd]. now split.
  - rewrite in_app_iff, IH1, IH2. tauto.
Qed.

(** The candidates of [format_regex_match], of which it takes the first. *)
Lemma format_regex_match_first (s : str) :
  format_regex_match s
  = head
      (flat_map (fun d =>
       flat_map (fun dot1 =>
       flat_map (fun m =>
       flat_map (fun dot2 =>
       map (fun y => (fst d, fst m, fst y, snd y))
           (re_match re_Y (snd dot2)))
         (re_match (re_char ".") (snd m)))
         (re_match re_m (snd dot1)))
         (re_match (re_char ".") (snd d)))
         (re_match re_d s)).
Proof. reflexivity. Qed.

Lemma re_char_lang (c : string) (t : str) :
  re_lang (re_char c) t <-> t = [ch c].
Proof.
  unfold re_char. cbn [re_lang]. split.
  - intros (c' & -> & Hc). f_equal.
    unfold in_range in Hc. apply andb_true_iff in Hc as [Hlo Hhi].
    apply N.leb_le in Hlo, Hhi. lia.
  - intros ->. exists (ch c). split; [reflexivity |].
    unfold in_range. now rewrite N.leb_refl.
Qed.

Lemma format_candidates_spec (s d m y rest : str) :
  In (d, m, y, rest)
     (flat_map (fun d =>
      flat_map (fun dot1 =>
      flat_map (fun m =>
      flat_map (fun dot2 =>
      map (fun y => (fst d, fst m, fst y, snd y))
          (re_match re_Y (snd dot2)))
        (re_match (re_char ".") (snd m)))
        (re_match re_m (snd dot1)))
        (re_match (re_char ".") (snd d)))
        (re_match re_d s))
  <-> s = d ++ [ch "."] ++ m ++ [ch "."] ++ y ++ rest
      /\ re_lang re_d d /\ re_lang re_m m /\ re_lang re_Y y.
Proof.
  split.
  - intros H.
    apply in_flat_map in H as ([d' s1] & Hd & H).
    apply in_flat_map in H as ([p1 s2] & Hp1 & H).
    apply in_flat_map in H as ([m' s3] & Hm & H).
    apply in_flat_map in H as ([p2 s4] & Hp2 & H).
    apply in_map_iff in H as ([y' s5] & [= <- <- <- <-] & Hy).
    cbn [fst snd] in *.
    apply re_match_spec in Hd as [-> Ld], Hp1 as [-> Lp1], Hm as [-> Lm],
      Hp2 as [-> Lp2], Hy as [-> Ly].
    apply re_char_lang in Lp1 as ->, Lp2 as ->.
    now repeat split.
  - intros (-> & Ld & Lm & Ly).
    apply in_flat_map. exists (d, [ch "."] ++ m ++ [ch "."] ++ y ++ rest).
    split; [apply re_match_spec; now split |].
    apply in_flat_map. exists ([ch "."], m ++ [ch "."] ++ y ++ rest).
    split; [apply re_match_spec; split; [reflexivity | now apply re_char_lang] |].
    apply in_flat_map. exists (m, [ch "."] ++ y ++ rest).
    split; [apply re_match_spec; now split |].
    apply in_flat_map. exists ([ch "."], y ++ rest).
    split; [apply re_match_spec; split; [reflexivity | now apply re_char_lang] |].
    apply in_map_iff. exists (y, rest). split; [reflexivity |].
    apply re_match_spec. now split.
Qed.

Lemma in_range_single (a c : char) : in_range a a c = true <-> c = a.
Proof.
  unfold in_range. rewrite andb_true_iff, !N.leb_le. lia.
Qed.

Lemma isdecimal_decimal_digit (c : char) :
  isdecimal_char c = true <-> exists v, decimal_digit c v.
Proof.
  unfold isdecimal_char, decimal_digit. destruct (decimal_value c) as [v |].
  - split; [now exists v | reflexivity].
  - split; [discriminate | now intros (v & ?)].
Qed.

Lemma ascii_digit_exists (lo hi : string) (c : char) :
  in_range (ch lo) (ch hi) c = true <-> exists v, ascii_digit lo hi c v.
Proof.
  unfold ascii_digit. split.
  - intros H. now exists (Z.of_N c - 48).
  - now intros (v & H & _).
Qed.

Lemma re_d_lang (t : str) : re_lang re_d t <-> exists v, day_text t v.
Proof.
  unfold re_d, re_char, re_range, re_digit. cbn [re_lang]. split.
  - intros [H | [H | [H | [H | H]]]].
    + destruct H as (t1 & t2 & -> & (c1 & -> & H1) & (c2 & -> & H2)).
      apply in_range_single in H1 as ->.
      apply ascii_digit_exists in H2 as (v & Hv).
      cbn [app]. exists (30 + v). now apply day_30_31.
    + destruct H as (t1 & t2 & -> & (c1 & -> & H1) & (c2 & -> & H2)).
      apply ascii_digit_exists in H1 as (v1 & Hv1).
      apply isdecimal_decimal_digit in H2 as (v2 & Hv2).
      cbn [app]. exists (10 * v1 + v2). now apply day_10_29.
    + destruct H as (t1 & t2 & -> & (c1 & -> & H1) & (c2 & -> & H2)).
      apply in_range_single in H1 as ->.
      apply ascii_digit_exists in H2 as (v & Hv).
      cbn [app]. exists v. now apply day_01_09.
    + destruct H as (c & -> & H).
      apply ascii_digit_exists in H as (v & Hv).
      cbn [app]. exists v. now apply day_1_9.
    + destruct H as (t1 & t2 & -> & (c1 & -> & H1) & (c2 & -> & H2)).
      apply in_range_single in H1 as ->.
      apply ascii_digit_exists in H2 as (v & Hv).
      cbn [app]. exists v. now apply day_space.
  - intros (v & H). destruct H as [c v H | c1 v1 c2 v2 H1 H2 | c v H | c v H | c v H].
    + left. exists [ch "3"], [c]. split; [reflexivity |]. split.
      * exists (ch "3"). split; [reflexivity | now apply in_range_single].
      * exists c. split; [reflexivity | apply H].
    + right; left. exists [c1], [c2]. split; [reflexivity |]. split.
      * exists c1. split; [reflexivity | apply H1].
      * exists c2. split; [reflexivity |].
        apply isdecimal_decimal_digit. now exists v2.
    + right; right; left. exists [ch "0"], [c]. split; [reflexivity |]. split.
      * exists (ch "0"). split; [reflexivity | now apply in_range_single].
      * exists c. split; [reflexivity | apply H].
    + right; right; right; left. exists c. split; [reflexivity | apply H].
    + right; right; right; right. exists [ch " "], [c]. split; [reflexivity |]. split.
      * exists (ch " "). split; [reflexivity | now apply in_range_single].
      * exists c. split; [reflexivity | apply H].
Qed.

Lemma re_m_lang (t : str) : re_lang re_m t <-> exists v, month_text t v.
Proof.
  unfold re_m, re_char, re_range. cbn [re_lang]. split.
  - intros [H | [H | H]].
    + destruct H as (t1 & t2 & -> & (c1 & -> & H1) & (c2 & -> & H2)).
      apply in_range_single in H1 as ->.
      apply ascii_digit_exists in H2 as (v & Hv).
      cbn [app]. exists (10 + v). now apply month_10_12.
    + destruct H as (t1 & t2 & -> & (c1 & -> & H1) & (c2 & -> & H2)).
      apply in_range_single in H1 as ->.
      apply ascii_digit_exists in H2 as (v & Hv).
      cbn [app]. exists v. now apply month_01_09.
    + destruct H as (c & -> & H).
      apply ascii_digit_exists in H as (v & Hv).
      cbn [app]. exists v. now apply month_1_9.
  - intros (v & H). destruct H as [c v H | c v H | c v H].
    + left. exists [ch "1"], [c]. split; [reflexivity |]. split.
      * exists (ch "1"). split; [reflexivity | now apply in_range_single].
      * exists c. split; [reflexivity | apply H].
    + right; left. exists [ch "0"], [c]. split; [reflexivity |]. split.
      * exists (ch "0"). split; [reflexivity | now apply in_range_single].
      * exists c. split; [reflexivity | apply H].
    + right; right. exists c. split; [reflexivity | apply H].
Qed.

Lemma re_Y_lang (t : str) : re_lang re_Y t <-> exists v, year_text t v.
Proof.
  unfold re_Y, re_digit. cbn [re_lang]. split.
  - intros (t1 & r1 & -> & (c1 & -> & H1) & t2 & r2 & -> & (c2 & -> & H2)
            & t3 & t4 & -> & (c3 & -> & H3) & (c4 & -> & H4)).
    apply isdecimal_decimal_digit in H1 as (v1 & Hv1), H2 as (v2 & Hv2),
      H3 as (v3 & Hv3), H4 as (v4 & Hv4).
    cbn [app]. exists (1000 * v1 + 100 * v2 + 10 * v3 + v4). now apply year_4_digits.
  - intros (v & H). destruct H as [c1 v1 c2 v2 c3 v3 c4 v4 H1 H2 H3 H4].
    exists [c1], [c2; c3; c4]. split; [reflexivity |]. split.
    { exists c1. split; [reflexivity |]. apply isdecimal_decimal_digit. now exists v1. }
    exists [c2], [c3; c4]. split; [reflexivity |]. split.
    { exists c2. split; [reflexivity |]. apply isdecimal_decimal_digit. now exists v2. }
    exists [c3], [c4]. split; [reflexivity |]. split.
    { exists c3. split; [reflexivity |]. apply isdecimal_decimal_digit. now exists v3. }
    exists c4. split; [reflexivity |]. apply isdecimal_decimal_digit. now exists v4.
Qed.

(** ** The character tables *)

Lemma in_range_bounds (lo hi c : char) :
  in_range lo hi c = true <-> (lo <= c <= hi)%N.
Proof. unfold in_range. now rewrite andb_true_iff, !N.leb_le. Qed.

Ltac eval_ch_in H :=
  repeat match type of H with
         | context [ch ?s] =>
             let v := eval vm_compute in (ch s) in change (ch s) with v in H
         end.

Lemma decimal_value_zero (c : char) (v : Z) :
  decimal_value c = Some v ->
  exists z, In z decimal_zeros /\ (z <= c <= z + 9)%N /\ v = Z.of_N (c - z)%N.
Proof.
  unfold decimal_value.
  destruct (List.find (fun z => in_range z (z + 9)%N c) decimal_zeros) as [z |] eqn:Hfind;
    [| discriminate].
  apply List.find_some in Hfind as [Hin Hrange]. intros [= <-].
  exists z. split; [exact Hin |]. split; [now apply in_range_bounds | reflexivity].
Qed.

Lemma decimal_value_bounds (c : char) (v : Z) :
  decimal_value c = Some v -> 0 <= v <= 9.
Proof.
  intros H. apply decimal_value_zero in H as (z & _ & Hz & ->). lia.
Qed.

(** No decimal digit is in [table], given that the runs of digits and the
    ranges of the table do not meet. *)
Lemma decimal_outside_table (table : list (char * char)) :
  forallb (fun z => forallb (fun r => ((z + 9 <? fst r) || (snd r <? z))%N) table)
          decimal_zeros = true ->
  forall c v, decimal_value c = Some v -> in_ranges table c = false.
Proof.
  intros Hapart c v Hc.
  apply decimal_value_zero in Hc as (z & Hz & Hzc & _).
  rewrite forallb_forall in Hapart. specialize (Hapart z Hz).
  rewrite forallb_forall in Hapart.
  destruct (in_ranges table c) eqn:Hin; [| reflexivity].
  unfold in_ranges in Hin. apply existsb_exists in Hin as (r & Hr & Hrc).
  apply in_range_bounds in Hrc. specialize (Hapart r Hr).
  destruct r as [lo hi]. cbn [fst snd] in *. unfold char in *.
  apply orb_true_iff in Hapart as [H | H]; apply N.ltb_lt in H; exfalso; lia.
Qed.

Lemma decimal_not_space (c : char) (v : Z) :
  decimal_value c = Some v -> isspace_char c = false.
Proof. apply decimal_outside_table. vm_compute. reflexivity. Qed.

Lemma decimal_not_dot (c : char) (v : Z) :
  decimal_value c = Some v -> c <> ch ".".
Proof.
  intros Hc ->. vm_compute in Hc. discriminate.
Qed.

Lemma ascii_digit_decimal (lo hi : string) (c : char) (v : Z) :
  (ch "0" <= ch lo)%N -> (ch hi <= ch "9")%N ->
  ascii_digit lo hi c v -> decimal_digit c v.
Proof.
  intros Hlo Hhi [Hc ->]. apply ascii_digit_is_decimal.
  apply in_range_bounds in Hc. apply in_range_bounds. lia.
Qed.

Lemma ascii_digit_value (lo hi : string) (c : char) (v : Z) :
  ascii_digit lo hi c v -> Z.of_N (ch lo) - 48 <= v <= Z.of_N (ch hi) - 48.
Proof. intros [Hc ->]. apply in_range_bounds in Hc. lia. Qed.

(** ** int *)

Lemma lstrip_keeps (c : char) (s : str) :
  isspace_char c = false -> lstrip (c :: s) = c :: s.
Proof. cbn [lstrip]. now intros ->. Qed.

Lemma digits_value_two (c1 c2 : char) (v1 v2 : Z) :
  decimal_digit c1 v1 -> decimal_digit c2 v2 ->
  int [c1; c2] = Ok (10 * v1 + v2).
Proof.
  unfold decimal_digit. intros H1 H2. unfold int, strip.
  rewrite (lstrip_keeps c1) by now apply (decimal_not_space c1 v1).
  cbn [rev app].
  rewrite (lstrip_keeps c2) by now apply (decimal_not_space c2 v2).
  cbn [rev app digits_value]. rewrite H1, H2. f_equal; lia.
Qed.

Lemma digits_value_one (c : char) (v : Z) :
  decimal_digit c v -> int [c] = Ok v.
Proof.
  unfold decimal_digit. intros H. unfold int, strip.
  rewrite (lstrip_keeps c) by now apply (decimal_not_space c v).
  cbn [rev app].
  rewrite (lstrip_keeps c) by now apply (decimal_not_space c v).
  cbn [rev app digits_value]. rewrite H. f_equal; lia.
Qed.

Lemma digits_value_space (c : char) (v : Z) :
  decimal_digit c v -> int [ch " "; c] = Ok v.
Proof.
  unfold decimal_digit. intros H. unfold int, strip.
  cbn [lstrip]. change (isspace_char (ch " ")) with true. cbn iota.
  rewrite (decimal_not_space c v H).
  cbn [rev app].
  rewrite (lstrip_keeps c) by now apply (decimal_not_space c v).
  cbn [rev app digits_value]. rewrite H. f_equal; lia.
Qed.

Lemma digits_value_four (c1 c2 c3 c4 : char) (v1 v2 v3 v4 : Z) :
  decimal_digit c1 v1 -> decimal_digit c2 v2 ->
  decimal_digit c3 v3 -> decimal_digit c4 v4 ->
  int [c1; c2; c3; c4] = Ok (1000 * v1 + 100 * v2 + 10 * v3 + v4).
Proof.
  unfold decimal_digit. intros H1 H2 H3 H4. unfold int, strip.
  rewrite (lstrip_keeps c1) by now apply (decimal_not_space c1 v1).
  cbn [rev app].
  rewrite (lstrip_keeps c4) by now apply (decimal_not_space c4 v4).
  cbn [rev app digits_value]. rewrite H1, H2, H3, H4. f_equal; lia.
Qed.

Lemma digit_three : decimal_digit (ch "3") 3.
Proof. reflexivity. Qed.

Lemma digit_one : decimal_digit (ch "1") 1.
Proof. reflexivity. Qed.

Lemma digit_zero : decimal_digit (ch "0") 0.
Proof. reflexivity. Qed.

Lemma day_text_int (t : str) (v : Z) :
  day_text t v -> int t = Ok v /\ 1 <= v <= 31.
Proof.
  intros H. destruct H as [c v H | c1 v1 c2 v2 H1 H2 | c v H | c v H | c v H].
  - pose proof (ascii_digit_value _ _ _ _ H) as Hb. eval_ch_in Hb.
    apply ascii_digit_decimal in H; [| vm_compute; discriminate..].
    rewrite (digits_value_two _ _ _ _ digit_three H). split; [f_equal; lia | lia].
  - pose proof (ascii_digit_value _ _ _ _ H1) as Hb. eval_ch_in Hb.
    pose proof (decimal_value_bounds _ _ H2).
    apply ascii_digit_decimal in H1; [| vm_compute; discriminate..].
    rewrite (digits_value_two _ _ _ _ H1 H2). split; [reflexivity | lia].
  - pose proof (ascii_digit_value _ _ _ _ H) as Hb. eval_ch_in Hb.
    apply ascii_digit_decimal in H; [| vm_compute; discriminate..].
    rewrite (digits_value_two _ _ _ _ digit_zero H). split; [f_equal; lia | lia].
  - pose proof (ascii_digit_value _ _ _ _ H) as Hb. eval_ch_in Hb.
    apply ascii_digit_decimal in H; [| vm_compute; discriminate..].
    rewrite (digits_value_one _ _ H). split; [reflexivity | lia].
  - pose proof (ascii_digit_value _ _ _ _ H) as Hb. eval_ch_in Hb.
    apply ascii_digit_decimal in H; [| vm_compute; discriminate..].
    rewrite (digits_value_space _ _ H). split; [reflexivity | lia].
Qed.

Lemma month_text_int (t : str) (v : Z) :
  month_text t v -> int t = Ok v /\ 1 <= v <= 12.
Proof.
  intros H. destruct H as [c v H | c v H | c v H].
  - pose proof (ascii_digit_value _ _ _ _ H) as Hb. eval_ch_in Hb.
    apply ascii_digit_decimal in H; [| vm_compute; discriminate..].
    rewrite (digits_value_two _ _ _ _ digit_one H). split; [f_equal; lia | lia].
  - pose proof (ascii_digit_value _ _ _ _ H) as Hb. eval_ch_in Hb.
    apply ascii_digit_decimal in H; [| vm_compute; discriminate..].
    rewrite (digits_value_two _ _ _ _ digit_zero H). split; [f_equal; lia | lia].
  - pose proof (ascii_digit_value _ _ _ _ H) as Hb. eval_ch_in Hb.
    apply ascii_digit_decimal in H; [| vm_compute; discriminate..].
    rewrite (digits_value_one _ _ H). split; [reflexivity | lia].
Qed.

Lemma year_text_int (t : str) (v : Z) :
  year_text t v -> int t = Ok v /\ 0 <= v <= 9999 /\ length t = 4%nat.
Proof.
  intros H. destruct H as [c1 v1 c2 v2 c3 v3 c4 v4 H1 H2 H3 H4].
  pose proof (decimal_value_bounds _ _ H1). pose proof (decimal_value_bounds _ _ H2).
  pose proof (decimal_value_bounds _ _ H3). pose proof (decimal_value_bounds _ _ H4).
  rewrite (digits_value_four _ _ _ _ _ _ _ _ H1 H2 H3 H4).
  split; [reflexivity |]. split; [lia | reflexivity].
Qed.

(** ** strptime *)

Lemma ascii_digit_not_dot (lo hi : string) (c : char) (v : Z) :
  (ch "0" <= ch lo)%N -> ascii_digit lo hi c v -> c <> ch ".".
Proof.
  intros Hlo [Hc _] ->. apply in_range_bounds in Hc.
  change (ch "0") with 48%N in Hlo. change (ch ".") with 46%N in Hc. lia.
Qed.

Ltac no_dot H :=
  eapply ascii_digit_not_dot; [| exact H]; vm_compute; discriminate.

Lemma day_text_no_dot (t : str) (v : Z) : day_text t v -> ~ In (ch ".") t.
Proof.
  intros H. destruct H as [c v H | c1 v1 c2 v2 H1 H2 | c v H | c v H | c v H];
    cbn [In]; intros Hin.
  - destruct Hin as [E | [E | []]]; [vm_compute in E; discriminate E |].
    revert E. no_dot H.
  - destruct Hin as [E | [E | []]]; revert E.
    + no_dot H1.
    + apply (decimal_not_dot _ _ H2).
  - destruct Hin as [E | [E | []]]; [vm_compute in E; discriminate E |].
    revert E. no_dot H.
  - destruct Hin as [E | []].
    revert E. no_dot H.
  - destruct Hin as [E | [E | []]]; [vm_compute in E; discriminate E |].
    revert E. no_dot H.
Qed.

Lemma month_text_no_dot (t : str) (v : Z) : month_text t v -> ~ In (ch ".") t.
Proof.
  intros H. destruct H as [c v H | c v H | c v H]; cbn [In]; intros Hin.
  - destruct Hin as [E | [E | []]]; [vm_compute in E; discriminate E |].
    revert E. no_dot H.
  - destruct Hin as [E | [E | []]]; [vm_compute in E; discriminate E |].
    revert E. no_dot H.
  - destruct Hin as [E | []].
    revert E. no_dot H.
Qed.

(** Two texts without a dot, each followed by a dot, that start the same
    string are the same text. *)
Lemma split_at_dot (a b r1 r2 : str) :
  ~ In (ch ".") a -> ~ In (ch ".") b ->
  a ++ ch "." :: r1 = b ++ ch "." :: r2 -> a = b /\ r1 = r2.
Proof.
  revert b. induction a as [| x a IH]; intros [| y b] Ha Hb E; cbn in E.
  - injection E as <-. now split.
  - injection E as <- _. destruct Hb. now left.
  - injection E as -> _. destruct Ha. now left.
  - injection E as -> E. destruct (IH b) as [-> ->]; [| | exact E | now split].
    + intros Hin. apply Ha. now right.
    + intros Hin. apply Hb. now right.
Qed.

Lemma head_In {A} (l : list A) (x : A) : head l = Some x -> In x l.
Proof. destruct l; [discriminate |]. intros [= ->]. now left. Qed.

Lemma In_head {A} (l : list A) (x : A) : In x l -> exists y, head l = Some y.
Proof. destruct l as [| y l]; [intros [] | now exists y]. Qed.

Lemma format_regex_match_sound (value d m y rest : str) :
  format_regex_match value = Some (d, m, y, rest) ->
  value = d ++ [ch "."] ++ m ++ [ch "."] ++ y ++ rest
  /\ (exists v, day_text d v) /\ (exists v, month_text m v)
  /\ (exists v, year_text y v).
Proof.
  rewrite format_regex_match_first. intros H. apply head_In in H.
  apply format_candidates_spec in H as (Hv & Ld & Lm & Ly).
  split; [exact Hv |].
  now rewrite <- re_d_lang, <- re_m_lang, <- re_Y_lang.
Qed.

Lemma format_regex_match_accepts (ds ms ys : str) (d m y : Z) :
  day_text ds d -> month_text ms m -> year_text ys y ->
  format_regex_match (ds ++ [ch "."] ++ ms ++ [ch "."] ++ ys)
  = Some (ds, ms, ys, []).
Proof.
  intros Hd Hm Hy.
  set (value := ds ++ [ch "."] ++ ms ++ [ch "."] ++ ys).
  assert (Hin : exists x, format_regex_match value = Some x).
  { rewrite format_regex_match_first. apply (In_head _ (ds, ms, ys, [])).
    apply format_candidates_spec. rewrite app_nil_r. split; [reflexivity |].
    rewrite re_d_lang, re_m_lang, re_Y_lang.
    split; [now exists d |]. split; [now exists m | now exists y]. }
  destruct Hin as ([[[d' m'] y'] rest'] & Hx). rewrite Hx. f_equal.
  apply format_regex_match_sound in Hx
    as (Hv & (vd & Hd') & (vm & Hm') & (vy & Hy')).
  unfold value in Hv. cbn [app] in Hv.
  apply split_at_dot in Hv as [<- Hv];
    [| now apply (day_text_no_dot ds d) | now apply (day_text_no_dot d' vd)].
  apply split_at_dot in Hv as [<- Hv];
    [| now apply (month_text_no_dot ms m) | now apply (month_text_no_dot m' vm)].
  destruct Hy as [c1 v1 c2 v2 c3 v3 c4 v4 _ _ _ _].
  destruct Hy' as [c1' v1' c2' v2' c3' v3' c4' v4' _ _ _ _].
  cbn [app] in Hv. now injection Hv as <- <- <- <- <-.
Qed.

Lemma int_raises_ValueError (t : str) (e : exn) :
  int t = Raise e -> is_ValueError e = true.
Proof.
  unfold int. destruct (strip t); [now intros [= <-] |].
  destruct (digits_value 0 (c :: s)); [discriminate | now intros [= <-]].
Qed.

Lemma date_new_raises_ValueError (y m d : Z) (e : exn) :
  date.new y m d = Raise e -> is_ValueError e = true.
Proof.
  unfold date.new.
  repeat match goal with
         | |- context [if ?b then _ else _] => destruct b
         end; (discriminate || now intros [= <-]).
Qed.

Lemma strptime_raises_ValueError (value : str) (e : exn) :
  strptime value = Raise e -> is_ValueError e = true.
Proof.
  unfold strptime.
  destruct (format_regex_match value) as [[[[d m] y] rest] |]; [| now intros [= <-]].
  destruct rest; [| now intros [= <-]].
  destruct (int d) as [dv | e1] eqn:Hd; cbn [res_bind];
    [| intros [= <-]; now apply (int_raises_ValueError d)].
  destruct (int m) as [mv | e2] eqn:Hm; cbn [res_bind];
    [| intros [= <-]; now apply (int_raises_ValueError m)].
  destruct (int y) as [yv | e3] eqn:Hy; cbn [res_bind];
    [| intros [= <-]; now apply (int_raises_ValueError y)].
  apply date_new_raises_ValueError.
Qed.

Lemma strptime_accepts_ok (value : str) :
  strptime_accepts value -> exists dt, strptime value = Ok dt.
Proof.
  intros (ds & d & ms & m & ys & y & -> & Hd & Hm & Hy & Hy1 & Hdm).
  unfold strptime. rewrite (format_regex_match_accepts ds ms ys d m y Hd Hm Hy).
  destruct (day_text_int ds d Hd) as [-> Hdb].
  destruct (month_text_int ms m Hm) as [-> Hmb].
  destruct (year_text_int ys y Hy) as (-> & Hyb & _).
  cbn [res_bind]. exists (date.mk y m d). apply date_new_valid.
  unfold date.valid, date.MINYEAR, date.MAXYEAR. cbn [date.year date.month date.day].
  lia.
Qed.

Lemma strptime_ok_accepts (value : str) (dt : date.t) :
  strptime value = Ok dt -> strptime_accepts value.
Proof.
  unfold strptime.
  destruct (format_regex_match value) as [[[[ds ms] ys] rest] |] eqn:Hmatch;
    [| discriminate].
  destruct rest; [| discriminate].
  apply format_regex_match_sound in Hmatch
    as (Hv & (d & Hd) & (m & Hm) & (y & Hy)).
  rewrite app_nil_r in Hv.
  destruct (day_text_int ds d Hd) as [-> Hdb].
  destruct (month_text_int ms m Hm) as [-> Hmb].
  destruct (year_text_int ys y Hy) as (-> & Hyb & _).
  cbn [res_bind]. intros Hnew. apply date_new_ok in Hnew as [-> Hvalid].
  unfold date.valid, date.MINYEAR in Hvalid. cbn [date.year date.month date.day] in Hvalid.
  exists ds, d, ms, m, ys, y. repeat split; try assumption; lia.
Qed.

(** ** Birthday *)

Lemma Birthday_init_strptime_ok (value : str) :
  Birthday.init value = Ok (Birthday.mk value) <-> strptime_accepts value.
Proof.
  unfold Birthday.init. split.
  - destruct (strptime value) as [dt | e] eqn:Hs.
    + intros _. now apply (strptime_ok_accepts value dt).
    + now destruct (is_ValueError e).
  - intros Hacc. now destruct (strptime_accepts_ok value Hacc) as (dt & ->).
Qed.

Lemma Birthday_init_cases (value : str) :
  Birthday.init value = Ok (Birthday.mk value)
  \/ Birthday.init value
     = Raise (ValueError (lit "Invalid date format. Use DD.MM.YYYY")).
Proof.
  unfold Birthday.init. destruct (strptime value) as [dt | e] eqn:Hs.
  - now left.
  - right. now rewrite (strptime_raises_ValueError value e Hs).
Qed.

Lemma ascii_digit_of_range (lo hi : string) (c : char) :
  (ch lo <= c <= ch hi)%N -> ascii_digit lo hi c (ascii_value c).
Proof. intros H. split; [now apply in_range_bounds | reflexivity]. Qed.

(** A string in the exact format, with zero padding, of a day that the
    calendar has from year 1 on, is one that strptime takes. *)
Lemma exact_format_accepted (value : str) :
  exact_DDMMYYYY value = true -> drop 6 value <> lit "0000" ->
  strptime_accepts value.
Proof.
  unfold exact_DDMMYYYY.
  destruct value as [| d1 [| d2 [| p1 [| m1 [| m2 [| p2 [| y1 [| y2 [| y3 [| y4 [| ? ?]]]]]]]]]]];
    try discriminate.
  cbn zeta. cbn [forallb drop].
  rewrite !andb_true_iff, !in_range_bounds, !N.eqb_eq, !Z.leb_le.
  change (ch "0") with 48%N. change (ch "9") with 57%N.
  intros [[[[[[HF Hp1] Hp2] Hm1] Hm12] Hd1] Hdm] Hyear.
  destruct HF as (D1 & D2 & M1 & M2 & Y1 & Y2 & Y3 & Y4 & _).
  change (ch ".") with 46%N in *. subst p1 p2.
  unfold ascii_value in *.
  assert (Hd31 := proj2 (days_in_month_bounds
    (1000 * (Z.of_N y1 - 48) + 100 * (Z.of_N y2 - 48) + 10 * (Z.of_N y3 - 48)
     + (Z.of_N y4 - 48))
    (10 * (Z.of_N m1 - 48) + (Z.of_N m2 - 48)))).
  assert (Hday : exists ds d, [d1; d2] = ds /\ day_text ds d
                              /\ d = 10 * (Z.of_N d1 - 48) + (Z.of_N d2 - 48)).
  { exists [d1; d2].
    assert (Hc : (d1 = 48 \/ d1 = 49 \/ d1 = 50 \/ d1 = 51)%N) by lia.
    destruct Hc as [-> | [-> | [-> | ->]]].
    - exists (Z.of_N d2 - 48). split; [reflexivity |]. split; [| lia].
      apply (day_01_09 d2). apply (ascii_digit_of_range "1" "9").
      change (ch "1") with 49%N. change (ch "9") with 57%N. lia.
    - exists (10 * (Z.of_N 49 - 48) + (Z.of_N d2 - 48)).
      split; [reflexivity |]. split; [| lia].
      apply (day_10_29 49%N _ d2).
      + apply (ascii_digit_of_range "1" "2"). vm_compute. split; discriminate.
      + apply ascii_digit_is_decimal. apply in_range_bounds.
        change (ch "0") with 48%N. change (ch "9") with 57%N. lia.
    - exists (10 * (Z.of_N 50 - 48) + (Z.of_N d2 - 48)).
      split; [reflexivity |]. split; [| lia].
      apply (day_10_29 50%N _ d2).
      + apply (ascii_digit_of_range "1" "2"). vm_compute. split; discriminate.
      + apply ascii_digit_is_decimal. apply in_range_bounds.
        change (ch "0") with 48%N. change (ch "9") with 57%N. lia.
    - exists (30 + (Z.of_N d2 - 48)). split; [reflexivity |]. split; [| lia].
      apply (day_30_31 d2). apply (ascii_digit_of_range "0" "1").
      change (ch "0") with 48%N. change (ch "1") with 49%N. lia. }
  assert (Hmonth : exists ms m, [m1; m2] = ms /\ month_text ms m
                                /\ m = 10 * (Z.of_N m1 - 48) + (Z.of_N m2 - 48)).
  { exists [m1; m2].
    assert (Hc : (m1 = 48 \/ m1 = 49)%N) by lia.
    destruct Hc as [-> | ->].
    - exists (Z.of_N m2 - 48). split; [reflexivity |]. split; [| lia].
      apply (month_01_09 m2). apply (ascii_digit_of_range "1" "9").
      change (ch "1") with 49%N. change (ch "9") with 57%N. lia.
    - exists (10 + (Z.of_N m2 - 48)). split; [reflexivity |]. split; [| lia].
      apply (month_10_12 m2). apply (ascii_digit_of_range "0" "2").
      change (ch "0") with 48%N. change (ch "2") with 50%N. lia. }
  assert (Hdigit : forall c, (48 <= c <= 57)%N -> decimal_digit c (Z.of_N c - 48)).
  { intros c Hc. apply ascii_digit_is_decimal. now apply in_range_bounds. }
  destruct Hday as (ds & d & <- & Hd & ->), Hmonth as (ms & m & <- & Hm & ->).
  exists [d1; d2], (10 * (Z.of_N d1 - 48) + (Z.of_N d2 - 48)),
    [m1; m2], (10 * (Z.of_N m1 - 48) + (Z.of_N m2 - 48)),
    [y1; y2; y3; y4],
    (1000 * (Z.of_N y1 - 48) + 100 * (Z.of_N y2 - 48) + 10 * (Z.of_N y3 - 48)
     + (Z.of_N y4 - 48)).
  split; [reflexivity |]. split; [exact Hd |]. split; [exact Hm |].
  split; [apply (year_4_digits y1 _ y2 _ y3 _ y4 _); now apply Hdigit |].
  split; [| exact Hdm].
  destruct (Z.le_gt_cases 1 (1000 * (Z.of_N y1 - 48) + 100 * (Z.of_N y2 - 48)
                             + 10 * (Z.of_N y3 - 48) + (Z.of_N y4 - 48)))
    as [Hge | Hlt]; [exact Hge |].
  destruct Hyear. assert (y1 = 48 /\ y2 = 48 /\ y3 = 48 /\ y4 = 48)%N as (-> & -> & -> & ->) by lia.
  reflexivity.
Qed.

(** C5, as the code has it: [Birthday] takes exactly the strings that
    strptime matches against %d.%m.%Y, which are a day, a month and a year
    between two dots with nothing before or after: the day on two digits or
    on one (1 to 9, alone or after a space), the month on two digits or on
    one, the year on four digits and at least 1, the day being one that the
    month has in that year. It stores the string unchanged, and raises
    ValueError on every other string. The strings of the exact format
    DD.MM.YYYY of a day of the calendar are taken, year 0000 apart. *)
Theorem Birthday_init_strptime (value : str) :
  (Birthday.init value = Ok (Birthday.mk value) <-> strptime_accepts value)
  /\ (forall b, Birthday.init value = Ok b -> Birthday.value b = value)
  /\ (Birthday.init value
      = Raise (ValueError (lit "Invalid date format. Use DD.MM.YYYY"))
      <-> ~ strptime_accepts value)
  /\ (exact_DDMMYYYY value = true -> drop 6 value <> lit "0000" ->
      Birthday.init value = Ok (Birthday.mk value)).
Proof.
  split; [apply Birthday_init_strptime_ok |].
  split.
  { intros b Hb. destruct (Birthday_init_cases value) as [H | H];
      rewrite H in Hb; [now injection Hb as <- | discriminate]. }
  split.
  - rewrite <- Birthday_init_strptime_ok. split.
    + intros H H'. rewrite H in H'. discriminate.
    + intros H. now destruct (Birthday_init_cases value).
  - intros Hexact Hyear. apply Birthday_init_strptime_ok.
    now apply exact_format_accepted.
Qed.

(** C5, as the claim states it, fails: "1.1.2000" has no zero padding and
    [Birthday] takes it. *)
Lemma Birthday_init_without_padding :
  exact_DDMMYYYY (lit "1.1.2000") = false
  /\ Birthday.init (lit "1.1.2000") = Ok (Birthday.mk (lit "1.1.2000")).
Proof. vm_compute. split; reflexivity. Qed.

(** Year 0000 is of the exact format, and [Birthday] refuses it: the calendar
    of [date] starts with year 1. *)
Lemma Birthday_init_year_zero :
  exact_DDMMYYYY (lit "01.01.0000") = true
  /\ Birthday.init (lit "01.01.0000")
     = Raise (ValueError (lit "Invalid date format. Use DD.MM.YYYY")).
Proof. vm_compute. split; reflexivity. Qed.

(** What else [Birthday] takes and refuses. *)
Example Birthday_init_examples :
  let refused value :=
    Birthday.init value
    = Raise (ValueError (lit "Invalid date format. Use DD.MM.YYYY")) in
  let taken value := Birthday.init value = Ok (Birthday.mk value) in
  taken (lit "25.12.1990") /\ taken (lit "29.02.2024") /\ taken (lit " 5.3.1999")
  /\ taken ([49; 1635; 46; 48; 49; 46; 1634; 1632; 1632; 1632]%N)
  /\ refused (lit "25-12-1990") /\ refused (lit "25/12/1990")
  /\ refused (lit "31.02.2000") /\ refused (lit "29.02.2023")
  /\ refused (lit "00.01.2000") /\ refused (lit "32.01.2000")
  /\ refused (lit "25.13.1990") /\ refused (lit "25.00.1990")
  /\ refused (lit "25.12.90") /\ refused (lit "25.12.19900")
  /\ refused (lit "25.12.1990 ") /\ refused (lit "x25.12.1990")
  /\ refused (lit "") /\ refused (lit "1990.12.25").
Proof. vm_compute. repeat split. Qed.

(** ** Where get_upcoming_birthdays returns *)

Lemma strptime_valid (value : str) (dt : date.t) :
  strptime value = Ok dt -> date.valid dt.
Proof.
  unfold strptime.
  destruct (format_regex_match value) as [[[[d m] y] rest] |]; [| discriminate].
  destruct rest; [| discriminate].
  destruct (int d); [| discriminate]. destruct (int m); [| discriminate].
  destruct (int y); [| discriminate]. cbn [res_bind].
  intros H. now apply date_new_ok in H.
Qed.

Lemma days_in_month_other_year (y y' m d : Z) :
  d <= date.days_in_month y m -> ~ (m = 2 /\ d = 29) ->
  d <= date.days_in_month y' m.
Proof.
  unfold date.days_in_month. destruct (Z.eqb_spec m 2) as [-> | Hm].
  - destruct (date.is_leap y), (date.is_leap y'); lia.
  - tauto.
Qed.

(** Every birthday but 29 February has its occurrence, up to the last year
    of the calendar. *)
Lemma occurrence_exists (born today : date.t) :
  date.valid born -> date.valid today -> date.year today < date.MAXYEAR ->
  ~ (date.month born = 2 /\ date.day born = 29) ->
  exists occ, occurrence born today = Ok occ.
Proof.
  unfold date.valid, date.MINYEAR, date.MAXYEAR.
  intros (Hy & Hm & Hd) (Hty & _) Hlast Hleap.
  unfold occurrence, date.replace_year.
  rewrite date_new_valid.
  2:{ unfold date.valid, date.MINYEAR, date.MAXYEAR. cbn [date.year date.month date.day].
      pose proof (days_in_month_other_year _ (date.year today) _ _ (proj2 Hd) Hleap).
      lia. }
  cbn [res_bind]. destruct (date.lt _ today); [| eauto].
  rewrite date_new_valid; [eauto |].
  unfold date.valid, date.MINYEAR, date.MAXYEAR. cbn [date.year date.month date.day].
  pose proof (days_in_month_other_year _ (date.year today + 1) _ _ (proj2 Hd) Hleap).
  lia.
Qed.

(** [get_upcoming_birthdays] returns on every book whose birthdays were built
    by [Birthday] and are not on 29 February. *)
Lemma upcoming_birthdays_returns (book : AddressBook.t) (days : Z) (today : date.t) :
  date.valid today -> date.year today < date.MAXYEAR ->
  (forall record birthday,
      In record (AddressBook.values book) ->
      Record.birthday record = Some birthday ->
      Birthday.init (Birthday.value birthday) = Ok birthday
      /\ forall born, Birthday.date_obj birthday = Ok born ->
                      ~ (date.month born = 2 /\ date.day born = 29)) ->
  exists result, AddressBook.get_upcoming_birthdays days today book = Ok result.
Proof.
  intros Htoday Hlast Hbook.
  assert (Hex : occurrences_exist (AddressBook.values book) today).
  { intros record birthday Hin Hb.
    destruct (Hbook record birthday Hin Hb) as [Hinit Hleap].
    unfold Birthday.init in Hinit. unfold Birthday.date_obj in *.
    destruct (strptime (Birthday.value birthday)) as [born | e] eqn:Hborn.
    - exists born.
      destruct (occurrence_exists born today) as (occ & Hocc); eauto.
      now apply (strptime_valid (Birthday.value birthday)).
    - now destruct (is_ValueError e). }
  destruct (upcoming_loop_selects days today _ Hex []) as (result & Hrun & _).
  now exists result.
Qed.

(** ** The books that the program builds are well formed *)

Lemma wf_book_empty : wf_book AddressBook.empty.
Proof. split; constructor. Qed.

Lemma find_In (key : str) (b : AddressBook.t) (r : Record.t) :
  AddressBook.find key b = Some r -> In (key, r) b.
Proof.
  induction b as [| [k r0] b IH]; cbn; [discriminate |].
  unfold str_eqb. case_bool_decide as Hk.
  - intros [= ->]. left. now rewrite Hk.
  - intros H. right. now apply IH.
Qed.

Lemma wf_book_find (key : str) (b : AddressBook.t) (r : Record.t) :
  wf_book b -> AddressBook.find key b = Some r ->
  Name.value (Record.name r) = key.
Proof.
  intros [_ Hkeys] Hfind. apply find_In in Hfind.
  rewrite List.Forall_forall in Hkeys. exact (Hkeys _ Hfind).
Qed.

Lemma setitem_keys (key k : str) (r : Record.t) (b : AddressBook.t) :
  In k (map fst (AddressBook.setitem key r b)) -> k = key \/ In k (map fst b).
Proof.
  induction b as [| [k0 r0] b IH]; cbn.
  - intros [<- | []]. now left.
  - destruct (str_eqb k0 key); cbn; [tauto |].
    intros [<- | H]; [right; now left |].
    destruct (IH H); [now left | right; now right].
Qed.

Lemma setitem_wf (key : str) (r : Record.t) (b : AddressBook.t) :
  wf_book b -> Name.value (Record.name r) = key ->
  wf_book (AddressBook.setitem key r b).
Proof.
  intros [Hnodup Hkeys] Hname. induction b as [| [k0 r0] b IH]; cbn.
  - split; [| now repeat constructor].
    cbn. apply NoDup_singleton.
  - cbn in Hnodup. apply NoDup_cons in Hnodup as [Hfresh Hnodup].
    apply List.Forall_cons_iff in Hkeys as [Hk0 Hkeys].
    unfold str_eqb. case_bool_decide as Hk.
    + subst k0. split; cbn.
      * now apply NoDup_cons.
      * now constructor.
    + destruct (IH Hnodup Hkeys) as [Hnodup' Hkeys']. split; cbn.
      * apply NoDup_cons. split; [| exact Hnodup'].
        intros Hin. apply list_elem_of_In, setitem_keys in Hin as [-> | Hin];
          [now apply Hk |].
        now apply Hfresh, list_elem_of_In.
      * now constructor.
Qed.

Lemma in_place_wf (key : str) (r : Record.t) (b : AddressBook.t) :
  wf_book b -> Name.value (Record.name r) = key ->
  wf_book (in_place key r b).
Proof.
  intros Hwf Hname. destruct (AddressBook.find key b) as [old |] eqn:Hfind.
  - rewrite (in_place_present _ _ _ _ Hfind). now apply setitem_wf.
  - now rewrite (in_place_absent _ _ _ Hfind).
Qed.

Lemma edit_phone_loop_name (rest : list Phone.t) (old_phone new_phone : str) :
  forall i self,
    Record.name (snd (Record.edit_phone_loop i rest old_phone new_phone self))
    = Record.name self.
Proof.
  induction rest as [| ph rest IH]; intros i self; cbn; [reflexivity |].
  destruct (str_eqb (Phone.value ph) old_phone); [| apply IH].
  unfold bind, lift, modify. now destruct (Phone.init new_phone).
Qed.

Lemma add_phone_name (phone : str) (self : Record.t) :
  Record.name (snd (Record.add_phone phone self)) = Record.name self.
Proof.
  unfold Record.add_phone, bind, lift, modify. now destruct (Phone.init phone).
Qed.

Lemma edit_phone_name (old_phone new_phone : str) (self : Record.t) :
  Record.name (snd (Record.edit_phone old_phone new_phone self))
  = Record.name self.
Proof. unfold Record.edit_phone, bind, get. apply edit_phone_loop_name. Qed.

Lemma add_birthday_name (birthday : str) (self : Record.t) :
  Record.name (snd (Record.add_birthday birthday self)) = Record.name self.
Proof.
  unfold Record.add_birthday, bind, lift, modify.
  now destruct (Birthday.init birthday).
Qed.

Section Invariant.
Context `{RT : Runtime}.

Lemma show_message_book {A} (message : str) (k : M world A) (w : world) :
  book (snd (bind (show_message message) (fun _ => k) w))
  = book (snd (k (mk_world (book w) (files w) (shown w ++ [message])))).
Proof. reflexivity. Qed.

Lemma show_upcoming_book (upcoming : list AddressBook.entry) (w : world) :
  book (snd (show_upcoming upcoming w)) = book w
  /\ exists r, fst (show_upcoming upcoming w) = Ok r.
Proof.
  revert w. induction upcoming as [| u rest IH]; intros w; cbn.
  - split; [reflexivity | now exists tt].
  - unfold bind, show_message, modify.
    destruct (IH (mk_world (book w) (files w)
                   (shown w ++ [AddressBook.name u ++ lit ": "
                                ++ AddressBook.congratulation_date u])))
      as [Hb Hr].
    exact (conj Hb Hr).
Qed.

Lemma on_record_wf {A} (key : str) (record : Record.t) (m : M Record.t A)
      (w : world) :
  wf_book (book w) ->
  Name.value (Record.name record) = key ->
  Record.name (snd (m record)) = Record.name record ->
  wf_book (book (snd (on_record key record m w))).
Proof.
  intros Hwf Hkey Hname. unfold on_record, on_book.
  destruct (m record) as [r record'] eqn:Hm. cbn [snd book] in *.
  apply in_place_wf; [exact Hwf | congruence].
Qed.

Lemma after_on_record_wf {A} (key : str) (record : Record.t)
      (m : M Record.t A) (message : str) (w : world) :
  wf_book (book w) ->
  Name.value (Record.name record) = key ->
  Record.name (snd (m record)) = Record.name record ->
  wf_book (book (snd ((let! _ := on_record key record m in
                       let! _ := show_message message in ret false) w))).
Proof.
  intros Hwf Hkey Hname.
  pose proof (on_record_wf key record m w Hwf Hkey Hname) as Hstep.
  unfold bind at 1. destruct (on_record key record m w) as [[a | e] w'];
    exact Hstep.
Qed.

(** One command leaves the book well formed. *)
Lemma command_body_wf (today : date.t) (command : str) (args : list str)
      (w : world) :
  wf_book (book w) ->
  wf_book (book (snd (command_body today command args w))).
Proof.
  intros Hwf. unfold command_body.
  destruct (str_eqb command (lit "exit") || str_eqb command (lit "close")).
  { rewrite exit_branch.
    now destruct (save_data (book w) default_filename (files w))
      as [[[] | e] fs]. }
  destruct (str_eqb command (lit "hello")); [exact Hwf |].
  destruct (str_eqb command (lit "add")).
  { unfold bind at 1. unfold lift at 1.
    destruct (unpack2 args) as [[name phone] | e]; [| exact Hwf].
    unfold bind at 1. unfold get at 1. unfold bind at 1.
    destruct (AddressBook.find name (book w)) as [record |] eqn:Hfind.
    - apply after_on_record_wf; [exact Hwf | | apply add_phone_name].
      now apply (wf_book_find name (book w)).
    - unfold bind at 1. unfold lift at 1.
      destruct name as [| c name]; [exact Hwf |].
      apply after_on_record_wf; [| reflexivity | apply add_phone_name].
      now apply setitem_wf. }
  destruct (str_eqb command (lit "change")).
  { unfold bind at 1. unfold lift at 1.
    destruct (unpack3 args) as [[[name old_phone] new_phone] | e]; [| exact Hwf].
    unfold bind at 1. unfold get at 1.
    destruct (AddressBook.find name (book w)) as [record |] eqn:Hfind;
      [| exact Hwf].
    apply after_on_record_wf; [exact Hwf | | apply edit_phone_name].
    now apply (wf_book_find name (book w)). }
  destruct (str_eqb command (lit "phone")).
  { unfold bind at 1. unfold lift at 1.
    destruct (first_arg args) as [name | e]; [| exact Hwf].
    unfold bind at 1. unfold get at 1.
    destruct (AddressBook.find name (book w)); exact Hwf. }
  destruct (str_eqb command (lit "all")); [exact Hwf |].
  destruct (str_eqb command (lit "add-birthday")).
  { unfold bind at 1. unfold lift at 1.
    destruct (unpack2 args) as [[name bday] | e]; [| exact Hwf].
    unfold bind at 1. unfold get at 1.
    destruct (AddressBook.find name (book w)) as [record |] eqn:Hfind;
      [| exact Hwf].
    apply after_on_record_wf; [exact Hwf | | apply add_birthday_name].
    now apply (wf_book_find name (book w)). }
  destruct (str_eqb command (lit "show-birthday")).
  { unfold bind at 1. unfold lift at 1.
    destruct (first_arg args) as [name | e]; [| exact Hwf].
    unfold bind at 1. unfold get at 1.
    destruct (AddressBook.find name (book w)) as [[n ps [b |]] |]; exact Hwf. }
  destruct (str_eqb command (lit "birthdays")); [| exact Hwf].
  unfold bind at 1. unfold get at 1. unfold bind at 1. unfold lift at 1.
  destruct (AddressBook.get_upcoming_birthdays 7 today (book w))
    as [[| u upcoming] | e]; [exact Hwf | | exact Hwf].
  unfold bind at 1.
  destruct (show_upcoming_book (u :: upcoming) w) as [Hbook [r Hr]].
  destruct (show_upcoming (u :: upcoming) w) as [[[] | e] w'];
    cbn [fst snd] in *; now rewrite <- Hbook in Hwf.
Qed.

Lemma main_iteration_wf (today : date.t) (line : str) (w : world) :
  wf_book (book w) -> wf_book (book (snd (main_iteration today line w))).
Proof.
  intros Hwf. unfold main_iteration.
  destruct (parse_input line) as [[command args] | e]; [| exact Hwf].
  pose proof (command_body_wf today command args w Hwf) as Hbody.
  destruct (command_body today command args w) as [[[] | e] w']; exact Hbody.
Qed.

(** Whatever the user types, the book stays well formed. *)
Lemma main_loop_wf (inputs : list (date.t * str)) (w : world) :
  wf_book (book w) -> wf_book (book (snd (main_loop inputs w))).
Proof.
  revert w. induction inputs as [| [today line] inputs IH]; intros w Hwf;
    cbn [main_loop]; [exact Hwf |].
  pose proof (main_iteration_wf today line w Hwf) as Hstep.
  destruct (main_iteration today line w) as [[| | e] w']; cbn [snd] in *;
    [now apply IH | exact Hstep | exact Hstep].
Qed.

End Invariant.

(** Started without a saved file, the program only ever holds a well-formed
    book. *)
Lemma main_wf `{RT : Runtime} (inputs : list (date.t * str)) (fs : filesystem) :
  fs !! default_filename = None ->
  wf_book (book (snd (main inputs fs))).
Proof.
  intros Hnone. unfold main. rewrite (load_data_missing _ _ Hnone).
  apply main_loop_wf. exact wf_book_empty.
Qed.

(** * Further properties of the program *)

(** ** AddressBook.add_record and AddressBook.find *)

Lemma find_setitem_same (key : str) (record : Record.t) (data : AddressBook.t) :
  AddressBook.find key (AddressBook.setitem key record data) = Some record.
Proof.
  induction data as [| [k r] data IH]; cbn.
  - unfold str_eqb. now rewrite bool_decide_eq_true_2.
  - destruct (str_eqb k key) eqn:Hk; cbn; now rewrite Hk.
Qed.

Lemma find_setitem_other (key other : str) (record : Record.t)
      (data : AddressBook.t) :
  other <> key ->
  AddressBook.find other (AddressBook.setitem key record data)
  = AddressBook.find other data.
Proof.
  intros Hne. induction data as [| [k r] data IH]; cbn.
  - unfold str_eqb. now rewrite bool_decide_eq_false_2 by congruence.
  - unfold str_eqb in *. case_bool_decide as Hk; cbn.
    + subst k. unfold str_eqb. now rewrite !bool_decide_eq_false_2 by congruence.
    + unfold str_eqb. case_bool_decide; [reflexivity | exact IH].
Qed.

Lemma setitem_existing_keys (key : str) (record old : Record.t)
      (data : AddressBook.t) :
  AddressBook.find key data = Some old ->
  map fst (AddressBook.setitem key record data) = map fst data.
Proof.
  induction data as [| [k r] data IH]; cbn; [discriminate |].
  destruct (str_eqb k key); cbn; [reflexivity |].
  intros H. now rewrite IH.
Qed.

(** X1: after [add_record], [find] with the name of the record returns that
    record, whatever the book held under the name before, and [find] with
    any other name returns what it returned before. *)
Theorem add_record_then_find
        (record : Record.t) (other : str) (self : AddressBook.t) :
  let self' := snd (AddressBook.add_record record self) in
  fst (AddressBook.add_record record self) = Ok tt
  /\ AddressBook.find (Name.value (Record.name record)) self' = Some record
  /\ (other <> Name.value (Record.name record) ->
      AddressBook.find other self' = AddressBook.find other self).
Proof.
  cbn. split; [reflexivity |]. split.
  - apply find_setitem_same.
  - apply find_setitem_other.
Qed.

(** X2: [add_record] under a name that the book holds replaces the record in
    place: the names keep their order and their number; under a new name it
    puts the record last. *)
Theorem add_record_keeps_order (record : Record.t) (self : AddressBook.t) :
  let key := Name.value (Record.name record) in
  let self' := snd (AddressBook.add_record record self) in
  (AddressBook.find key self = None -> self' = self ++ [(key, record)])
  /\ (forall old, AddressBook.find key self = Some old ->
                  map fst self' = map fst self /\ length self' = length self).
Proof.
  cbn. split.
  - apply setitem_fresh.
  - intros old Hold.
    pose proof (setitem_existing_keys _ record old self Hold) as Hkeys.
    split; [exact Hkeys |].
    rewrite <- (length_map fst), Hkeys. apply length_map.
Qed.

(** ** The methods of Record *)

(** X3: [add_phone] with a phone that [Phone] takes puts it after the phones
    of the record, also when the record holds it already, and changes
    nothing else; with a phone that [Phone] refuses it raises the error of
    [Phone] and the record is what it was. *)
Theorem add_phone_appends (phone : str) (self : Record.t) :
  (ten_unicode_digits phone = true ->
   Record.add_phone phone self
   = (Ok tt, Record.mk (Record.name self)
                       (Record.phones self ++ [Phone.mk phone])
                       (Record.birthday self)))
  /\ (ten_unicode_digits phone = false ->
      Record.add_phone phone self
      = (Raise (ValueError (lit "Phone must contain exactly 10 digits")), self)).
Proof.
  unfold Record.add_phone, bind, lift, modify. rewrite Phone_init_ten_digits.
  split; intros ->; reflexivity.
Qed.

Lemma phones_match_or_not (phones : list Phone.t) (old_phone : str) :
  Forall (fun ph => Phone.value ph <> old_phone) phones
  \/ exists mid ph post,
       phones = mid ++ ph :: post
       /\ Forall (fun ph => Phone.value ph <> old_phone) mid
       /\ Phone.value ph = old_phone.
Proof.
  induction phones as [| ph0 phones IH].
  - left. constructor.
  - destruct (decide (Phone.value ph0 = old_phone)) as [Heq | Hne].
    + right. exists [], ph0, phones. repeat split; [constructor | exact Heq].
    + destruct IH as [Hnone | (mid & ph & post & -> & Hmid & Hph)].
      * left. now constructor.
      * right. exists (ph0 :: mid), ph, post.
        repeat split; [now constructor | exact Hph].
Qed.

(** X4: whether it returns or raises, [edit_phone] leaves the name, the
    birthday and the number of phones of the record as they were, and every
    phone whose value is not [old_phone] at its index. *)
Theorem edit_phone_frame (old_phone new_phone : str) (self : Record.t) :
  let self' := snd (Record.edit_phone old_phone new_phone self) in
  Record.name self' = Record.name self
  /\ Record.birthday self' = Record.birthday self
  /\ length (Record.phones self') = length (Record.phones self)
  /\ forall (j : nat) ph,
       Record.phones self !! j = Some ph -> Phone.value ph <> old_phone ->
       Record.phones self' !! j = Some ph.
Proof.
  cbn zeta. split; [apply edit_phone_name |].
  unfold Record.edit_phone, bind, get.
  destruct (phones_match_or_not (Record.phones self) old_phone)
    as [Hnone | (mid & ph & post & Hsplit & Hmid & Hph)].
  - rewrite (edit_phone_loop_no_match _ old_phone new_phone Hnone). cbn [snd].
    repeat split; auto.
  - pose proof (edit_phone_loop_first_match mid ph post old_phone new_phone
                  Hmid Hph 0%nat self) as Hrun.
    rewrite <- Hsplit in Hrun. rewrite Hrun.
    destruct (Phone.init new_phone) as [p | e]; cbn [snd Nat.add].
    + split; [reflexivity |]. cbn [Record.set_phones Record.phones].
      split; [apply length_insert |].
      intros j ph' Hj Hne.
      destruct (decide (length mid = j)) as [<- | Hij].
      * exfalso. apply Hne. rewrite Hsplit in Hj.
        rewrite list_lookup_middle in Hj by reflexivity. now injection Hj as <-.
      * now rewrite list_lookup_insert_ne.
    + repeat split; auto.
Qed.

(** X5: [add_birthday] with a string that [Birthday] takes stores it in place
    of the birthday that the record had, if any, and leaves the name and the
    phones; with a string that [Birthday] refuses it raises the error of
    [Birthday] and the record keeps the birthday it had. *)
Theorem add_birthday_overwrites (birthday : str) (self : Record.t) :
  (strptime_accepts birthday ->
   Record.add_birthday birthday self
   = (Ok tt, Record.mk (Record.name self) (Record.phones self)
                       (Some (Birthday.mk birthday))))
  /\ (~ strptime_accepts birthday ->
      Record.add_birthday birthday self
      = (Raise (ValueError (lit "Invalid date format. Use DD.MM.YYYY")), self)).
Proof.
  unfold Record.add_birthday, bind, lift, modify. split.
  - intros Hacc. apply Birthday_init_strptime_ok in Hacc. now rewrite Hacc.
  - intros Hrefused. destruct (Birthday_init_cases birthday) as [H | H].
    + now apply Birthday_init_strptime_ok in H.
    + now rewrite H.
Qed.

(** ** parse_input *)

(** A word: at least one character, none of them whitespace. *)
Definition is_word (t : str) : bool :=
  match t with
  | [] => false
  | _ => forallb (fun c => negb (isspace_char c)) t
  end.

Lemma split_aux_words (s cur : str) :
  forallb (fun c => negb (isspace_char c)) cur = true ->
  Forall (fun t => is_word t = true) (split_aux cur s).
Proof.
  revert cur. induction s as [| c s IH]; intros cur Hcur; cbn [split_aux].
  - destruct cur as [| c0 cur]; [constructor |].
    constructor; [| constructor].
    assert (Hrev : forallb (fun c => negb (isspace_char c)) (rev (c0 :: cur)) = true).
    { rewrite forallb_forall in *. intros x Hx. apply Hcur.
      now apply in_rev. }
    unfold is_word. destruct (rev (c0 :: cur)) eqn:E; [| exact Hrev].
    apply (f_equal (@length _)) in E. rewrite length_rev in E. discriminate.
  - destruct (isspace_char c) eqn:Hc.
    + destruct cur as [| c0 cur]; [now apply IH |].
      constructor; [| now apply IH].
      assert (Hrev : forallb (fun c => negb (isspace_char c)) (rev (c0 :: cur)) = true).
      { rewrite forallb_forall in *. intros x Hx. apply Hcur.
        now apply in_rev. }
      unfold is_word. destruct (rev (c0 :: cur)) eqn:E; [| exact Hrev].
      apply (f_equal (@length _)) in E. rewrite length_rev in E. discriminate.
    + apply IH. cbn [forallb]. now rewrite Hc, Hcur.
Qed.

Lemma split_aux_nil (s cur : str) :
  split_aux cur s = [] -> cur = [] /\ forallb isspace_char s = true.
Proof.
  revert cur. induction s as [| c s IH]; intros cur; cbn [split_aux forallb].
  - destruct cur; [now split | discriminate].
  - destruct (isspace_char c) eqn:Hc.
    + destruct cur; [| discriminate]. intros H.
      destruct (IH [] H) as [_ Hs]. now split.
    + intros H. destruct (IH _ H) as [Hcur _]. discriminate.
Qed.

Lemma split_aux_word (t : str) :
  forallb (fun c => negb (isspace_char c)) t = true ->
  forall cur rest, split_aux cur (t ++ rest) = split_aux (rev t ++ cur) rest.
Proof.
  induction t as [| c t IH]; intros Ht cur rest; [reflexivity |].
  cbn [forallb] in Ht. apply andb_true_iff in Ht as [Hc Ht].
  apply negb_true_iff in Hc. cbn [app split_aux]. rewrite Hc.
  rewrite (IH Ht). cbn [rev]. now rewrite <- app_assoc.
Qed.

Lemma is_word_spec (t : str) :
  is_word t = true ->
  t <> [] /\ forallb (fun c => negb (isspace_char c)) t = true.
Proof. destruct t; [discriminate |]. intros H. now split. Qed.

Lemma split_join_words (words : list str) :
  Forall (fun t => is_word t = true) words ->
  split (join (lit " ") words) = words.
Proof.
  unfold split. induction 1 as [| t words Ht Hwords IH]; [reflexivity |].
  apply is_word_spec in Ht as [Hne Ht].
  destruct words as [| t' words].
  - cbn [join]. rewrite <- (app_nil_r t) at 1.
    rewrite (split_aux_word t Ht), app_nil_r. cbn [split_aux].
    destruct (rev t) eqn:E.
    + apply (f_equal (@length _)) in E. rewrite length_rev in E.
      destruct t; [congruence | discriminate].
    + now rewrite <- E, rev_involutive.
  - change (join (lit " ") (t :: t' :: words))
      with (t ++ lit " " ++ join (lit " ") (t' :: words)).
    set (tail := join (lit " ") (t' :: words)) in *.
    rewrite (split_aux_word t Ht), app_nil_r.
    change (lit " ") with [32%N]. cbn [app split_aux].
    change (isspace_char 32%N) with true. cbn iota.
    destruct (rev t) eqn:E.
    + apply (f_equal (@length _)) in E. rewrite length_rev in E.
      destruct t; [congruence | discriminate].
    + rewrite <- E, rev_involutive. now rewrite IH.
Qed.

Section Parsing.
Context `{RT : Runtime}.

(** X6: [parse_input] raises IndexError exactly on the lines that hold
    whitespace only, the empty line among them; on every other line it
    returns, and each argument it returns is a word: not empty, and without
    whitespace. *)
Theorem parse_input_blank_or_words (line : str) :
  (parse_input line = Raise (IndexError (lit "list index out of range"))
   <-> forallb isspace_char line = true)
  /\ (forallb isspace_char line = false <->
      exists command args, parse_input line = Ok (command, args))
  /\ (forall command args,
        parse_input line = Ok (command, args) ->
        Forall (fun a => is_word a = true) args).
Proof.
  unfold parse_input.
  pose proof (split_aux_words line [] eq_refl) as Hwords.
  fold (split line) in Hwords.
  destruct (split line) as [| first rest] eqn:Hs.
  - apply split_aux_nil in Hs as [_ Hblank]. rewrite Hblank.
    split; [tauto |]. split; [| discriminate].
    split; [discriminate | now intros (c & a & ?)].
  - assert (Hnot : forallb isspace_char line = false).
    { destruct (forallb isspace_char line) eqn:Hb; [| reflexivity].
      rewrite (split_whitespace line Hb) in Hs. discriminate. }
    rewrite Hnot. split; [split; discriminate |]. split.
    + split; [eauto | reflexivity].
    + intros command args [= _ <-]. now inversion Hwords.
Qed.

(** X7: a line made of words with one space between them is read back as
    these words: the first one in lower case as the command, the others as
    the arguments, in order. *)
Theorem parse_input_of_words (command : str) (args : list str) :
  Forall (fun t => is_word t = true) (command :: args) ->
  parse_input (join (lit " ") (command :: args)) = Ok (str_lower command, args).
Proof.
  intros Hwords. unfold parse_input. now rewrite (split_join_words _ Hwords).
Qed.

End Parsing.

Lemma parse_input_of_words_witness :
  @parse_input Codec.runtime (lit "ADD Bob 0123456789")
  = Ok (lit "add", [lit "Bob"; lit "0123456789"]).
Proof.
  apply (@parse_input_of_words Codec.runtime (lit "ADD")
           [lit "Bob"; lit "0123456789"]).
  repeat constructor.
Defined.

(** ** What a turn of the loop touches *)

(** The commands that [main] knows. *)
Definition known_commands : list str :=
  [lit "exit"; lit "close"; lit "hello"; lit "add"; lit "change"; lit "phone";
   lit "all"; lit "add-birthday"; lit "show-birthday"; lit "birthdays"].

(** The message of the ValueError of an unpacking of [got] values into
    [expected] names. *)
Definition unpack_error (expected got : nat) : str :=
  if (got <? expected)%nat
  then lit "not enough values to unpack (expected " ++ str_of_nat expected
       ++ lit ", got " ++ str_of_nat got ++ lit ")"
  else lit "too many values to unpack (expected " ++ str_of_nat expected
       ++ lit ")".

Section Turn.
Context `{RT : Runtime}.

Lemma str_eqb_eq (a b : str) : str_eqb a b = true <-> a = b.
Proof. unfold str_eqb. apply bool_decide_eq_true. Qed.

Lemma str_eqb_neq (a b : str) : str_eqb a b = false <-> a <> b.
Proof. unfold str_eqb. apply bool_decide_eq_false. Qed.

Lemma on_record_frame {A} (key : str) (record : Record.t) (m : M Record.t A)
      (w : world) :
  files (snd (on_record key record m w)) = files w
  /\ shown (snd (on_record key record m w)) = shown w
  /\ fst (on_record key record m w) = fst (m record)
  /\ book (snd (on_record key record m w))
     = in_place key (snd (m record)) (book w).
Proof. unfold on_record, on_book. now destruct (m record). Qed.

Lemma show_upcoming_shown (upcoming : list AddressBook.entry) (w : world) :
  show_upcoming upcoming w
  = (Ok tt,
     mk_world (book w) (files w)
       (shown w ++ map (fun u => AddressBook.name u ++ lit ": "
                                 ++ AddressBook.congratulation_date u) upcoming)).
Proof.
  revert w. induction upcoming as [| u rest IH]; intros w; cbn [show_upcoming map].
  - unfold ret. rewrite app_nil_r. now destruct w.
  - unfold bind, show_message, modify. rewrite IH. cbn [book files shown].
    now rewrite <- app_assoc.
Qed.

(** A method of a record followed by a message, as the commands add, change
    and add-birthday end. *)
Lemma record_command_run {A} (key : str) (record : Record.t)
      (m : M Record.t A) (message : str) (w : world) :
  (let! _ := on_record key record m in
   let! _ := show_message message in ret false) w
  = match fst (m record) with
    | Ok _ =>
        (Ok false,
         mk_world (in_place key (snd (m record)) (book w))
                  (files w) (shown w ++ [message]))
    | Raise e =>
        (Raise e,
         mk_world (in_place key (snd (m record)) (book w))
                  (files w) (shown w))
    end.
Proof.
  unfold bind, on_record, on_book, show_message, modify, ret.
  now destruct (m record) as [[a | e] record'].
Qed.

(** What the body of the [try] statement does to the files and to the
    messages: the files change on exit and close only; a body that returns
    has shown at least one message, a body that raises has shown none. *)
Lemma command_body_effects (today : date.t) (command : str) (args : list str)
      (w : world) (r : res bool) (w' : world) :
  command_body today command args w = (r, w') ->
  (command <> lit "exit" -> command <> lit "close" -> files w' = files w)
  /\ match r with
     | Ok _ => exists msgs, msgs <> [] /\ shown w' = shown w ++ msgs
     | Raise _ => shown w' = shown w
     end.
Proof.
  assert (Hone : forall (m : str) (l : list str), exists msgs,
             msgs <> [] /\ l ++ [m] = l ++ msgs).
  { intros m l. now exists [m]. }
  assert (Hrec : forall (w0 : world) (key : str) (record : Record.t)
                        (m : M Record.t unit) (message : str),
             files w0 = files w -> shown w0 = shown w ->
             (let! _ := on_record key record m in
              let! _ := show_message message in ret false) w0 = (r, w') ->
             files w' = files w
             /\ match r with
                | Ok _ => exists msgs, msgs <> [] /\ shown w' = shown w ++ msgs
                | Raise _ => shown w' = shown w
                end).
  { intros w0 key record m message Hf Hs. rewrite record_command_run.
    destruct (fst (m record)); intros [= <- <-]; cbn [files shown];
      (split; [exact Hf |]); rewrite Hs; [apply Hone | reflexivity]. }
  unfold command_body.
  destruct (str_eqb command (lit "exit")) eqn:Hexit.
  { apply str_eqb_eq in Hexit. cbn [orb]. rewrite exit_branch.
    destruct (save_data (book w) default_filename (files w))
      as [[[] | e] fs]; intros [= <- <-];
      (split; [congruence |]); [apply Hone | reflexivity]. }
  destruct (str_eqb command (lit "close")) eqn:Hclose.
  { apply str_eqb_eq in Hclose. cbn [orb]. rewrite exit_branch.
    destruct (save_data (book w) default_filename (files w))
      as [[[] | e] fs]; intros [= <- <-];
      (split; [congruence |]); [apply Hone | reflexivity]. }
  cbn [orb].
  destruct (str_eqb command (lit "hello")).
  { intros [= <- <-]. split; [reflexivity | apply Hone]. }
  destruct (str_eqb command (lit "add")).
  { unfold bind at 1. unfold lift at 1.
    destruct (unpack2 args) as [[name phone] | e]; [| now intros [= <- <-]].
    unfold bind at 1. unfold get at 1. unfold bind at 1.
    destruct (AddressBook.find name (book w)) as [record |].
    - unfold ret at 1. intros Hrun.
      apply Hrec in Hrun; [| reflexivity..]. destruct Hrun. now split.
    - unfold bind at 1. unfold lift at 1.
      destruct (Record.init name) as [record | e]; [| now intros [= <- <-]].
      unfold bind at 1. unfold on_book at 1.
      unfold AddressBook.add_record at 1. unfold modify at 1. unfold ret at 1.
      intros Hrun.
      apply Hrec in Hrun; [| reflexivity..]. destruct Hrun. now split. }
  destruct (str_eqb command (lit "change")).
  { unfold bind at 1. unfold lift at 1.
    destruct (unpack3 args) as [[[name old_phone] new_phone] | e];
      [| now intros [= <- <-]].
    unfold bind at 1. unfold get at 1.
    destruct (AddressBook.find name (book w)) as [record |];
      [| now intros [= <- <-]].
    intros Hrun. apply Hrec in Hrun; [| reflexivity..]. destruct Hrun. now split. }
  destruct (str_eqb command (lit "phone")).
  { unfold bind at 1. unfold lift at 1.
    destruct (first_arg args) as [name | e]; [| now intros [= <- <-]].
    unfold bind at 1. unfold get at 1.
    destruct (AddressBook.find name (book w)); [| now intros [= <- <-]].
    intros [= <- <-]. split; [reflexivity | apply Hone]. }
  destruct (str_eqb command (lit "all")).
  { intros [= <- <-]. split; [reflexivity | apply Hone]. }
  destruct (str_eqb command (lit "add-birthday")).
  { unfold bind at 1. unfold lift at 1.
    destruct (unpack2 args) as [[name bday] | e]; [| now intros [= <- <-]].
    unfold bind at 1. unfold get at 1.
    destruct (AddressBook.find name (book w)) as [record |];
      [| now intros [= <- <-]].
    intros Hrun. apply Hrec in Hrun; [| reflexivity..]. destruct Hrun. now split. }
  destruct (str_eqb command (lit "show-birthday")).
  { unfold bind at 1. unfold lift at 1.
    destruct (first_arg args) as [name | e]; [| now intros [= <- <-]].
    unfold bind at 1. unfold get at 1.
    destruct (AddressBook.find name (book w)) as [[n ps [b |]] |];
      intros [= <- <-]; (split; [reflexivity | apply Hone]). }
  destruct (str_eqb command (lit "birthdays")).
  { unfold bind at 1. unfold get at 1. unfold bind at 1. unfold lift at 1.
    destruct (AddressBook.get_upcoming_birthdays 7 today (book w))
      as [[| u upcoming] | e].
    - intros [= <- <-]. split; [reflexivity | apply Hone].
    - unfold bind. rewrite show_upcoming_shown. unfold ret.
      intros [= <- <-]. cbn [files shown].
      split; [reflexivity |]. eexists. split; [| reflexivity]. discriminate.
    - now intros [= <- <-]. }
  intros [= <- <-]. split; [reflexivity | apply Hone].
Qed.

End Turn.

Section Commands.
Context `{RT : Runtime}.

(** What the body of the [try] statement does to the book: only add, change
    and add-birthday change it. *)
Lemma command_body_book (today : date.t) (command : str) (args : list str)
      (w : world) :
  command <> lit "add" -> command <> lit "change" ->
  command <> lit "add-birthday" ->
  book (snd (command_body today command args w)) = book w.
Proof.
  intros Hadd Hchange Hbday. unfold command_body.
  destruct (str_eqb command (lit "exit") || str_eqb command (lit "close")).
  { rewrite exit_branch.
    now destruct (save_data (book w) default_filename (files w))
      as [[[] | e] fs]. }
  destruct (str_eqb command (lit "hello")); [reflexivity |].
  apply str_eqb_neq in Hadd, Hchange, Hbday. rewrite Hadd, Hchange.
  destruct (str_eqb command (lit "phone")).
  { unfold bind at 1. unfold lift at 1.
    destruct (first_arg args) as [name | e]; [| reflexivity].
    unfold bind at 1. unfold get at 1.
    now destruct (AddressBook.find name (book w)). }
  destruct (str_eqb command (lit "all")); [reflexivity |].
  rewrite Hbday.
  destruct (str_eqb command (lit "show-birthday")).
  { unfold bind at 1. unfold lift at 1.
    destruct (first_arg args) as [name | e]; [| reflexivity].
    unfold bind at 1. unfold get at 1.
    now destruct (AddressBook.find name (book w)) as [[n ps [b |]] |]. }
  destruct (str_eqb command (lit "birthdays")); [| reflexivity].
  unfold bind at 1. unfold get at 1. unfold bind at 1. unfold lift at 1.
  destruct (AddressBook.get_upcoming_birthdays 7 today (book w))
    as [[| u upcoming] | e]; [reflexivity | | reflexivity].
  unfold bind. now rewrite show_upcoming_shown.
Qed.

Lemma main_iteration_world (today : date.t) (line command : str)
      (args : list str) (w : world) :
  parse_input line = Ok (command, args) ->
  let body := command_body today command args w in
  book (snd (main_iteration today line w)) = book (snd body)
  /\ files (snd (main_iteration today line w)) = files (snd body)
  /\ shown (snd (main_iteration today line w))
     = match fst body with
       | Ok _ => shown (snd body)
       | Raise e => shown (snd body) ++ [lit "Error: " ++ exn_message e]
       end.
Proof.
  intros Hparse. cbn zeta. unfold main_iteration. rewrite Hparse.
  now destruct (command_body today command args w) as [[[] | e] w'].
Qed.

Lemma parse_input_returns (line : str) :
  forallb isspace_char line = false ->
  exists command args, parse_input line = Ok (command, args).
Proof.
  intros Hword. unfold parse_input.
  destruct (split line) as [| first rest] eqn:Hs; [| eauto].
  apply split_aux_nil in Hs as [_ Hblank]. congruence.
Qed.

(** X8: a line whose first word, in lower case, is none of the commands
    shows "Invalid command." and changes neither the book nor the files; the
    loop goes on. *)
Theorem unknown_command_changes_nothing
        (today : date.t) (line command : str) (args : list str) (w : world) :
  parse_input line = Ok (command, args) ->
  ~ In command known_commands ->
  main_iteration today line w
  = (Continue,
     mk_world (book w) (files w) (shown w ++ [lit "Invalid command."])).
Proof.
  intros Hparse Hunknown. unfold main_iteration. rewrite Hparse.
  assert (Hne : forall c, In c known_commands -> str_eqb command c = false).
  { intros c Hc. apply str_eqb_neq. intros ->. now apply Hunknown. }
  unfold command_body.
  rewrite !Hne by (unfold known_commands; cbn [In]; tauto).
  reflexivity.
Qed.

(** X9: the files change on exit and close only, and the book on add, change
    and add-birthday only: after any other command they are what they were,
    whether the command succeeds or shows an error. *)
Theorem turn_leaves_book_and_files
        (today : date.t) (line command : str) (args : list str) (w : world) :
  parse_input line = Ok (command, args) ->
  let w' := snd (main_iteration today line w) in
  (command <> lit "exit" -> command <> lit "close" -> files w' = files w)
  /\ (command <> lit "add" -> command <> lit "change" ->
      command <> lit "add-birthday" -> book w' = book w).
Proof.
  intros Hparse. cbn zeta.
  destruct (main_iteration_world today line command args w Hparse)
    as (Hbook & Hfiles & _).
  rewrite Hbook, Hfiles. split.
  - destruct (command_body today command args w) as [r w'] eqn:Hbody.
    now destruct (command_body_effects _ _ _ _ _ _ Hbody).
  - apply command_body_book.
Qed.

Lemma main_loop_shown (inputs : list (date.t * str)) (w : world) :
  exists msgs, shown (snd (main_loop inputs w)) = shown w ++ msgs.
Proof.
  revert w. induction inputs as [| [today line] inputs IH]; intros w;
    cbn [main_loop].
  - exists []. now rewrite app_nil_r.
  - assert (Hstep : exists msgs,
               shown (snd (main_iteration today line w)) = shown w ++ msgs).
    { unfold main_iteration.
      destruct (parse_input line) as [[command args] | e];
        [| exists []; now rewrite app_nil_r].
      destruct (command_body today command args w) as [r w'] eqn:Hbody.
      destruct (command_body_effects _ _ _ _ _ _ Hbody) as [_ Hshown].
      destruct r as [[] | e]; cbn [snd].
      - destruct Hshown as (msgs & _ & ->). now exists msgs.
      - destruct Hshown as (msgs & _ & ->). now exists msgs.
      - unfold show_message, modify. cbn [snd shown]. rewrite Hshown. eauto. }
    destruct (main_iteration today line w) as [[| | e] w'];
      cbn [snd] in *; try exact Hstep.
    destruct Hstep as (msgs & Hw'), (IH w') as (msgs' & ->).
    exists (msgs ++ msgs'). now rewrite Hw', app_assoc.
Qed.

(** X18: every line with a word on it is answered: the turn adds at least
    one message to those shown; and the loop never takes back a message. *)
Theorem every_command_is_answered
        (today : date.t) (line : str) (w : world)
        (inputs : list (date.t * str)) :
  forallb isspace_char line = false ->
  (exists msgs, msgs <> []
                /\ shown (snd (main_iteration today line w)) = shown w ++ msgs)
  /\ exists msgs, shown (snd (main_loop inputs w)) = shown w ++ msgs.
Proof.
  intros Hword. split; [| apply main_loop_shown].
  destruct (parse_input_returns line Hword) as (command & args & Hparse).
  destruct (main_iteration_world today line command args w Hparse)
    as (_ & _ & Hshown).
  rewrite Hshown.
  destruct (command_body today command args w) as [r w'] eqn:Hbody.
  destruct (command_body_effects _ _ _ _ _ _ Hbody) as [_ Hbody_shown].
  destruct r as [b | e]; cbn [fst snd].
  - exact Hbody_shown.
  - rewrite Hbody_shown. eexists. split; [| reflexivity]. discriminate.
Qed.


(** X11: add and add-birthday with other than two arguments, and change with
    other than three, show the error of the unpacking and leave the book and
    the files as they were: the arguments are unpacked before the book is
    looked at. *)
Theorem wrong_number_of_arguments
        (today : date.t) (line command : str) (args : list str)
        (expected : nat) (w : world) :
  parse_input line = Ok (command, args) ->
  ((command = lit "add" \/ command = lit "add-birthday") /\ expected = 2%nat)
  \/ (command = lit "change" /\ expected = 3%nat) ->
  length args <> expected ->
  main_iteration today line w
  = (Continue,
     mk_world (book w) (files w)
              (shown w ++ [lit "Error: " ++ unpack_error expected (length args)])).
Proof.
  intros Hparse Hcommand Hlen.
  assert (H2 : length args <> 2%nat ->
               unpack2 args = Raise (ValueError (unpack_error 2 (length args)))).
  { destruct args as [| a [| b [| c args']]]; cbn; try reflexivity; congruence. }
  assert (H3 : length args <> 3%nat ->
               unpack3 args = Raise (ValueError (unpack_error 3 (length args)))).
  { destruct args as [| a [| b [| c [| d args']]]]; cbn; try reflexivity;
      congruence. }
  unfold main_iteration. rewrite Hparse. unfold command_body.
  destruct Hcommand as [[[-> | ->] ->] | [-> ->]].
  - change (str_eqb (lit "add") (lit "exit")) with false.
    change (str_eqb (lit "add") (lit "close")) with false.
    change (str_eqb (lit "add") (lit "hello")) with false.
    change (str_eqb (lit "add") (lit "add")) with true. cbn [orb].
    unfold bind, lift. now rewrite (H2 Hlen).
  - change (str_eqb (lit "add-birthday") (lit "exit")) with false.
    change (str_eqb (lit "add-birthday") (lit "close")) with false.
    change (str_eqb (lit "add-birthday") (lit "hello")) with false.
    change (str_eqb (lit "add-birthday") (lit "add")) with false.
    change (str_eqb (lit "add-birthday") (lit "change")) with false.
    change (str_eqb (lit "add-birthday") (lit "phone")) with false.
    change (str_eqb (lit "add-birthday") (lit "all")) with false.
    change (str_eqb (lit "add-birthday") (lit "add-birthday")) with true.
    cbn [orb]. unfold bind, lift. now rewrite (H2 Hlen).
  - change (str_eqb (lit "change") (lit "exit")) with false.
    change (str_eqb (lit "change") (lit "close")) with false.
    change (str_eqb (lit "change") (lit "hello")) with false.
    change (str_eqb (lit "change") (lit "add")) with false.
    change (str_eqb (lit "change") (lit "change")) with true.
    cbn [orb]. unfold bind, lift. now rewrite (H3 Hlen).
Qed.

Lemma command_body_phone (today : date.t) (name : str) (rest : list str)
      (w : world) :
  command_body today (lit "phone") (name :: rest) w
  = match AddressBook.find name (book w) with
    | None => (Raise (ValueError (lit "Contact not found")), w)
    | Some record =>
        (Ok false,
         mk_world (book w) (files w)
           (shown w ++ [join (lit "; ") (map Phone.value (Record.phones record))]))
    end.
Proof.
  unfold command_body.
  change (str_eqb (lit "phone") (lit "exit")) with false.
  change (str_eqb (lit "phone") (lit "close")) with false.
  change (str_eqb (lit "phone") (lit "hello")) with false.
  change (str_eqb (lit "phone") (lit "add")) with false.
  change (str_eqb (lit "phone") (lit "change")) with false.
  change (str_eqb (lit "phone") (lit "phone")) with true.
  cbn [orb]. unfold bind, lift, get, first_arg.
  now destruct (AddressBook.find name (book w)).
Qed.

Lemma command_body_change (today : date.t) (name old_phone new_phone : str)
      (w : world) :
  command_body today (lit "change") [name; old_phone; new_phone] w
  = match AddressBook.find name (book w) with
    | None => (Raise (ValueError (lit "Contact not found")), w)
    | Some record =>
        (let! _ := on_record name record (Record.edit_phone old_phone new_phone) in
         let! _ := show_message (lit "Phone updated.") in ret false) w
    end.
Proof.
  unfold command_body.
  change (str_eqb (lit "change") (lit "exit")) with false.
  change (str_eqb (lit "change") (lit "close")) with false.
  change (str_eqb (lit "change") (lit "hello")) with false.
  change (str_eqb (lit "change") (lit "add")) with false.
  change (str_eqb (lit "change") (lit "change")) with true.
  cbn [orb]. unfold bind at 1. unfold lift at 1. unfold unpack3.
  unfold bind at 1. unfold get at 1.
  now destruct (AddressBook.find name (book w)).
Qed.

Lemma command_body_add_birthday (today : date.t) (name bday : str) (w : world) :
  command_body today (lit "add-birthday") [name; bday] w
  = match AddressBook.find name (book w) with
    | None => (Raise (ValueError (lit "Contact not found")), w)
    | Some record =>
        (let! _ := on_record name record (Record.add_birthday bday) in
         let! _ := show_message (lit "Birthday added.") in ret false) w
    end.
Proof.
  unfold command_body.
  change (str_eqb (lit "add-birthday") (lit "exit")) with false.
  change (str_eqb (lit "add-birthday") (lit "close")) with false.
  change (str_eqb (lit "add-birthday") (lit "hello")) with false.
  change (str_eqb (lit "add-birthday") (lit "add")) with false.
  change (str_eqb (lit "add-birthday") (lit "change")) with false.
  change (str_eqb (lit "add-birthday") (lit "phone")) with false.
  change (str_eqb (lit "add-birthday") (lit "all")) with false.
  change (str_eqb (lit "add-birthday") (lit "add-birthday")) with true.
  cbn [orb]. unfold bind at 1. unfold lift at 1. unfold unpack2.
  unfold bind at 1. unfold get at 1.
  now destruct (AddressBook.find name (book w)).
Qed.

Lemma command_body_show_birthday (today : date.t) (name : str)
      (rest : list str) (w : world) :
  command_body today (lit "show-birthday") (name :: rest) w
  = (Ok false,
     mk_world (book w) (files w)
       (shown w ++ [match AddressBook.find name (book w) with
                    | Some record =>
                        match Record.birthday record with
                        | Some birthday => Birthday.value birthday
                        | None => lit "No birthday set."
                        end
                    | None => lit "No birthday set."
                    end])).
Proof.
  unfold command_body.
  change (str_eqb (lit "show-birthday") (lit "exit")) with false.
  change (str_eqb (lit "show-birthday") (lit "close")) with false.
  change (str_eqb (lit "show-birthday") (lit "hello")) with false.
  change (str_eqb (lit "show-birthday") (lit "add")) with false.
  change (str_eqb (lit "show-birthday") (lit "change")) with false.
  change (str_eqb (lit "show-birthday") (lit "phone")) with false.
  change (str_eqb (lit "show-birthday") (lit "all")) with false.
  change (str_eqb (lit "show-birthday") (lit "add-birthday")) with false.
  change (str_eqb (lit "show-birthday") (lit "show-birthday")) with true.
  cbn [orb]. unfold bind, lift, get, first_arg.
  now destruct (AddressBook.find name (book w)) as [[n ps [b |]] |].
Qed.

(** The last record put under a key is the one that stays. *)
Lemma setitem_setitem (key : str) (r0 r1 : Record.t) (data : AddressBook.t) :
  AddressBook.setitem key r1 (AddressBook.setitem key r0 data)
  = AddressBook.setitem key r1 data.
Proof.
  induction data as [| [k r] data IH]; cbn.
  - unfold str_eqb. now rewrite bool_decide_eq_true_2.
  - destruct (str_eqb k key) eqn:Hk; cbn; rewrite Hk; [reflexivity |].
    now rewrite IH.
Qed.

(** The add command with a phone that [Phone] takes. *)
Lemma command_body_add_valid (today : date.t) (name phone : str) (w : world) :
  name <> [] -> ten_unicode_digits phone = true ->
  let record :=
    match AddressBook.find name (book w) with
    | Some record => record
    | None => Record.mk (Name.mk name) [] None
    end in
  command_body today (lit "add") [name; phone] w
  = (Ok false,
     mk_world (AddressBook.setitem name
                 (Record.mk (Record.name record)
                            (Record.phones record ++ [Phone.mk phone])
                            (Record.birthday record))
                 (book w))
              (files w) (shown w ++ [lit "Contact added."])).
Proof.
  intros Hname Hphone. cbn zeta. unfold command_body.
  change (str_eqb (lit "add") (lit "exit")) with false.
  change (str_eqb (lit "add") (lit "close")) with false.
  change (str_eqb (lit "add") (lit "hello")) with false.
  change (str_eqb (lit "add") (lit "add")) with true.
  cbn [orb]. unfold bind at 1. unfold lift at 1. unfold unpack2.
  unfold bind at 1. unfold get at 1. unfold bind at 1.
  assert (Hadd : forall r, Record.add_phone phone r
                           = (Ok tt, Record.mk (Record.name r)
                                               (Record.phones r ++ [Phone.mk phone])
                                               (Record.birthday r))).
  { intros r. unfold Record.add_phone, bind, lift, modify.
    rewrite Phone_init_ten_digits, Hphone. reflexivity. }
  destruct (AddressBook.find name (book w)) as [record |] eqn:Hfind.
  - unfold ret at 1. rewrite record_command_run, Hadd. cbn [fst snd].
    now rewrite (in_place_present _ _ _ _ Hfind).
  - unfold bind at 1. unfold lift at 1.
    rewrite (Record_init_nonempty name Hname).
    unfold bind at 1. unfold on_book at 1. unfold AddressBook.add_record at 1.
    unfold modify at 1. unfold ret at 1.
    rewrite record_command_run, Hadd. cbn [fst snd book files shown Record.name
      Record.phones Record.birthday Name.value].
    now rewrite in_place_setitem.
Qed.

(** X12: change, phone and add-birthday for a name that the book does not
    hold show "Error: Contact not found" and leave the book and the files as
    they were; for change and add-birthday also when the new phone or the
    birthday is not valid. *)
Theorem unknown_contact_is_reported
        (today : date.t) (line command name : str) (args : list str) (w : world) :
  parse_input line = Ok (command, args) ->
  AddressBook.find name (book w) = None ->
  (command = lit "change" /\ exists old_phone new_phone,
                              args = [name; old_phone; new_phone])
  \/ (command = lit "phone" /\ exists rest, args = name :: rest)
  \/ (command = lit "add-birthday" /\ exists bday, args = [name; bday]) ->
  main_iteration today line w
  = (Continue,
     mk_world (book w) (files w) (shown w ++ [lit "Error: Contact not found"])).
Proof.
  intros Hparse Hfind Hcommand. unfold main_iteration. rewrite Hparse.
  destruct Hcommand as [[-> (o & n & ->)] | [[-> (rest & ->)] | [-> (b & ->)]]].
  - now rewrite command_body_change, Hfind.
  - now rewrite command_body_phone, Hfind.
  - now rewrite command_body_add_birthday, Hfind.
Qed.

(** X19: after an add with a phone that [Phone] takes, the phone command for
    the same name shows the phones that the contact had before, if it was in
    the book, and the new one last, with "; " between them. *)
Theorem add_then_phone
        (today today' : date.t) (line line' name phone : str)
        (rest : list str) (w : world) :
  parse_input line = Ok (lit "add", [name; phone]) ->
  parse_input line' = Ok (lit "phone", name :: rest) ->
  ten_unicode_digits phone = true ->
  let before :=
    match AddressBook.find name (book w) with
    | Some record => map Phone.value (Record.phones record)
    | None => []
    end in
  exists w1,
    main_iteration today line w = (Continue, w1)
    /\ shown w1 = shown w ++ [lit "Contact added."]
    /\ main_iteration today' line' w1
       = (Continue,
          mk_world (book w1) (files w)
            (shown w ++ [lit "Contact added.";
                         join (lit "; ") (before ++ [phone])])).
Proof.
  intros Hparse Hparse' Hphone. cbn zeta.
  assert (Hname : name <> []).
  { pose proof (parse_input_args_nonempty _ _ _ Hparse) as Hargs.
    now inversion Hargs. }
  pose proof (command_body_add_valid today name phone w Hname Hphone) as Hadd.
  cbn zeta in Hadd.
  eexists. split.
  { unfold main_iteration. rewrite Hparse, Hadd. reflexivity. }
  split; [reflexivity |].
  unfold main_iteration. rewrite Hparse', command_body_phone.
  cbn [book files shown]. rewrite find_setitem_same.
  cbn [Record.phones]. rewrite map_app, <- app_assoc. cbn [map Phone.value app].
  now destruct (AddressBook.find name (book w)).
Qed.

(** X20: after an add-birthday for a contact of the book with a string that
    [Birthday] takes, show-birthday for the same name shows that string as
    it was typed, whatever birthday the contact had before. *)
Theorem add_birthday_then_show
        (today today' : date.t) (line line' name bday : str)
        (rest : list str) (record : Record.t) (w : world) :
  parse_input line = Ok (lit "add-birthday", [name; bday]) ->
  parse_input line' = Ok (lit "show-birthday", name :: rest) ->
  AddressBook.find name (book w) = Some record ->
  strptime_accepts bday ->
  exists w1,
    main_iteration today line w = (Continue, w1)
    /\ AddressBook.find name (book w1)
       = Some (Record.mk (Record.name record) (Record.phones record)
                         (Some (Birthday.mk bday)))
    /\ main_iteration today' line' w1
       = (Continue,
          mk_world (book w1) (files w)
                   (shown w ++ [lit "Birthday added."; bday])).
Proof.
  intros Hparse Hparse' Hfind Hacc.
  assert (Hset : Record.add_birthday bday record
                 = (Ok tt, Record.mk (Record.name record) (Record.phones record)
                                     (Some (Birthday.mk bday)))).
  { unfold Record.add_birthday, bind, lift, modify.
    apply Birthday_init_strptime_ok in Hacc. now rewrite Hacc. }
  eexists. split.
  { unfold main_iteration. rewrite Hparse, command_body_add_birthday, Hfind.
    rewrite record_command_run, Hset. reflexivity. }
  cbn [book files shown fst snd]. rewrite (in_place_present _ _ _ _ Hfind).
  split; [apply find_setitem_same |].
  unfold main_iteration. rewrite Hparse', command_body_show_birthday.
  cbn [book files shown]. rewrite find_setitem_same. cbn [Record.birthday].
  now rewrite <- app_assoc.
Qed.

End Commands.

(** ** The properties of the commands on the reference runtime *)

Lemma unknown_command_changes_nothing_witness :
  let w := @mk_world Codec.runtime [] ∅ [] in
  main_iteration (date.mk 2024 6 10) (lit "Dance now") w
  = (Continue, mk_world [] ∅ [lit "Invalid command."]).
Proof.
  intros w.
  apply (@unknown_command_changes_nothing Codec.runtime (date.mk 2024 6 10)
           (lit "Dance now") (lit "dance") [lit "now"] w).
  - reflexivity.
  - unfold known_commands. cbn [In]. intros H.
    repeat (destruct H as [H | H]; [vm_compute in H; discriminate H |]).
    exact H.
Defined.

Lemma turn_leaves_book_and_files_witness :
  let bob := Record.mk (Name.mk (lit "Bob")) [Phone.mk (lit "0123456789")] None in
  let w := @mk_world Codec.runtime [(lit "Bob", bob)] ∅ [] in
  let w' := snd (main_iteration (date.mk 2024 6 10) (lit "phone Ann") w) in
  files w' = files w /\ book w' = book w.
Proof.
  intros bob w w'.
  destruct (@turn_leaves_book_and_files Codec.runtime (date.mk 2024 6 10)
              (lit "phone Ann") (lit "phone") [lit "Ann"] w eq_refl)
    as [Hfiles Hbook].
  split; [apply Hfiles | apply Hbook]; vm_compute; discriminate.
Defined.

Lemma every_command_is_answered_witness :
  let w := @mk_world Codec.runtime [] ∅ [lit "Welcome"] in
  let today := date.mk 2024 6 10 in
  (exists msgs, msgs <> []
                /\ shown (snd (main_iteration today (lit "birthdays") w))
                   = shown w ++ msgs)
  /\ exists msgs,
       shown (snd (main_loop [(today, lit "all"); (today, lit "exit")] w))
       = shown w ++ msgs.
Proof.
  intros w today.
  apply (@every_command_is_answered Codec.runtime today (lit "birthdays") w
           [(today, lit "all"); (today, lit "exit")]).
  reflexivity.
Defined.


Lemma wrong_number_of_arguments_witness :
  let w := @mk_world Codec.runtime [] ∅ [] in
  main_iteration (date.mk 2024 6 10) (lit "add Bob") w
  = (Continue,
     mk_world [] ∅
       [lit "Error: not enough values to unpack (expected 2, got 1)"]).
Proof.
  intros w.
  apply (@wrong_number_of_arguments Codec.runtime (date.mk 2024 6 10)
           (lit "add Bob") (lit "add") [lit "Bob"] 2%nat w).
  - reflexivity.
  - left. split; [now left | reflexivity].
  - discriminate.
Defined.

Lemma unknown_contact_is_reported_witness :
  let w := @mk_world Codec.runtime [] ∅ [] in
  main_iteration (date.mk 2024 6 10) (lit "change Bob 0123456789 12") w
  = (Continue, mk_world [] ∅ [lit "Error: Contact not found"]).
Proof.
  intros w.
  apply (@unknown_contact_is_reported Codec.runtime (date.mk 2024 6 10)
           (lit "change Bob 0123456789 12") (lit "change") (lit "Bob")
           [lit "Bob"; lit "0123456789"; lit "12"] w).
  - reflexivity.
  - reflexivity.
  - left. split; [reflexivity |]. now exists (lit "0123456789"), (lit "12").
Defined.

Lemma add_then_phone_witness :
  let bob := Record.mk (Name.mk (lit "Bob")) [Phone.mk (lit "0123456789")] None in
  let w := @mk_world Codec.runtime [(lit "Bob", bob)] ∅ [] in
  let today := date.mk 2024 6 10 in
  exists w1,
    main_iteration today (lit "add Bob 1111111111") w = (Continue, w1)
    /\ shown w1 = shown w ++ [lit "Contact added."]
    /\ main_iteration today (lit "phone Bob") w1
       = (Continue,
          mk_world (book w1) (files w)
            (shown w ++ [lit "Contact added.";
                         join (lit "; ") ([lit "0123456789"] ++ [lit "1111111111"])])).
Proof.
  intros bob w today.
  apply (@add_then_phone Codec.runtime today today (lit "add Bob 1111111111")
           (lit "phone Bob") (lit "Bob") (lit "1111111111") [] w).
  - reflexivity.
  - reflexivity.
  - reflexivity.
Defined.

Lemma add_birthday_then_show_witness :
  let bob := Record.mk (Name.mk (lit "Bob")) []
               (Some (Birthday.mk (lit "01.01.1990"))) in
  let w := @mk_world Codec.runtime [(lit "Bob", bob)] ∅ [] in
  let today := date.mk 2024 6 10 in
  exists w1,
    main_iteration today (lit "add-birthday Bob 5.6.1991") w = (Continue, w1)
    /\ AddressBook.find (lit "Bob") (book w1)
       = Some (Record.mk (Name.mk (lit "Bob")) []
                         (Some (Birthday.mk (lit "5.6.1991"))))
    /\ main_iteration today (lit "show-birthday Bob") w1
       = (Continue,
          mk_world (book w1) (files w)
                   (shown w ++ [lit "Birthday added."; lit "5.6.1991"])).
Proof.
  intros bob w today.
  apply (@add_birthday_then_show Codec.runtime today today
           (lit "add-birthday Bob 5.6.1991") (lit "show-birthday Bob")
           (lit "Bob") (lit "5.6.1991") [] bob w).
  - reflexivity.
  - reflexivity.
  - reflexivity.
  - apply Birthday_init_strptime_ok. vm_compute. reflexivity.
Defined.

(** ** The fields that the book holds are valid *)

(** A record as the commands build it: a name that is not empty, phones that
    [Phone] takes, and a birthday, if any, that [Birthday] takes. *)
Definition valid_record (r : Record.t) : Prop :=
  Name.value (Record.name r) <> []
  /\ Forall (fun ph => ten_unicode_digits (Phone.value ph) = true) (Record.phones r)
  /\ forall b, Record.birthday r = Some b -> strptime_accepts (Birthday.value b).

Definition valid_book (b : AddressBook.t) : Prop :=
  Forall (fun item => valid_record (snd item)) b.

Lemma setitem_valid (key : str) (r : Record.t) (b : AddressBook.t) :
  valid_book b -> valid_record r -> valid_book (AddressBook.setitem key r b).
Proof.
  unfold valid_book. intros Hb Hr. induction Hb as [| [k r0] b Hr0 Hb IH]; cbn.
  - constructor; [exact Hr | constructor].
  - destruct (str_eqb k key); now constructor.
Qed.

Lemma in_place_valid (key : str) (r : Record.t) (b : AddressBook.t) :
  valid_book b -> valid_record r -> valid_book (in_place key r b).
Proof.
  unfold valid_book. intros Hb Hr. induction Hb as [| [k r0] b Hr0 Hb IH]; cbn.
  - constructor.
  - destruct (str_eqb k key); now constructor.
Qed.

Lemma find_valid (key : str) (r : Record.t) (b : AddressBook.t) :
  valid_book b -> AddressBook.find key b = Some r -> valid_record r.
Proof.
  unfold valid_book. intros Hb Hfind. apply find_In in Hfind.
  rewrite List.Forall_forall in Hb. exact (Hb _ Hfind).
Qed.

Lemma Phone_init_valid (value : str) (p : Phone.t) :
  Phone.init value = Ok p -> ten_unicode_digits (Phone.value p) = true.
Proof.
  rewrite Phone_init_ten_digits.
  destruct (ten_unicode_digits value) eqn:H; [| discriminate].
  now intros [= <-].
Qed.

Lemma add_phone_valid (phone : str) (r : Record.t) :
  valid_record r -> valid_record (snd (Record.add_phone phone r)).
Proof.
  intros (Hname & Hphones & Hbday).
  unfold Record.add_phone, bind, lift, modify.
  destruct (Phone.init phone) as [p | e] eqn:Hp; cbn [snd]; [| now repeat split].
  repeat split; [exact Hname | | exact Hbday].
  cbn [Record.set_phones Record.phones]. apply Forall_app. split; [exact Hphones |].
  constructor; [| constructor]. now apply (Phone_init_valid phone).
Qed.

Lemma edit_phone_valid (old_phone new_phone : str) (r : Record.t) :
  valid_record r -> valid_record (snd (Record.edit_phone old_phone new_phone r)).
Proof.
  intros (Hname & Hphones & Hbday). unfold Record.edit_phone, bind, get.
  destruct (phones_match_or_not (Record.phones r) old_phone)
    as [Hnone | (mid & ph & post & Hsplit & Hmid & Hph)].
  - rewrite (edit_phone_loop_no_match _ old_phone new_phone Hnone).
    now repeat split.
  - pose proof (edit_phone_loop_first_match mid ph post old_phone new_phone
                  Hmid Hph 0%nat r) as Hrun.
    rewrite <- Hsplit in Hrun. rewrite Hrun.
    destruct (Phone.init new_phone) as [p | e] eqn:Hp; cbn [snd];
      [| now repeat split].
    repeat split; [exact Hname | | exact Hbday].
    cbn [Record.set_phones Record.phones].
    apply Forall_insert; [exact Hphones |]. now apply (Phone_init_valid new_phone).
Qed.

Lemma add_birthday_valid (birthday : str) (r : Record.t) :
  valid_record r -> valid_record (snd (Record.add_birthday birthday r)).
Proof.
  intros (Hname & Hphones & Hbday).
  unfold Record.add_birthday, bind, lift, modify.
  destruct (Birthday_init_cases birthday) as [H | H]; rewrite H; cbn [snd];
    [| now repeat split].
  repeat split; [exact Hname | exact Hphones |].
  cbn [Record.set_birthday Record.birthday]. intros b [= <-].
  now apply Birthday_init_strptime_ok.
Qed.

Section Validity.
Context `{RT : Runtime}.

Lemma record_command_book {A} (key : str) (record : Record.t)
      (m : M Record.t A) (message : str) (w : world) :
  book (snd ((let! _ := on_record key record m in
              let! _ := show_message message in ret false) w))
  = in_place key (snd (m record)) (book w).
Proof. rewrite record_command_run. now destruct (fst (m record)). Qed.

Lemma command_body_valid (today : date.t) (command : str) (args : list str)
      (w : world) :
  valid_book (book w) ->
  valid_book (book (snd (command_body today command args w))).
Proof.
  intros Hv.
  destruct (decide (command = lit "add")) as [-> | Hadd].
  { unfold command_body.
    change (str_eqb (lit "add") (lit "exit")) with false.
    change (str_eqb (lit "add") (lit "close")) with false.
    change (str_eqb (lit "add") (lit "hello")) with false.
    change (str_eqb (lit "add") (lit "add")) with true. cbn [orb].
    unfold bind at 1. unfold lift at 1.
    destruct (unpack2 args) as [[name phone] | e]; [| exact Hv].
    unfold bind at 1. unfold get at 1. unfold bind at 1.
    destruct (AddressBook.find name (book w)) as [record |] eqn:Hfind.
    - unfold ret at 1. rewrite record_command_book.
      apply in_place_valid; [exact Hv |].
      apply add_phone_valid. now apply (find_valid name record (book w)).
    - unfold bind at 1. unfold lift at 1.
      destruct name as [| c name]; [exact Hv |].
      unfold Record.init, Name.init, res_bind.
      unfold bind at 1. unfold on_book at 1. unfold AddressBook.add_record at 1.
      unfold modify at 1. unfold ret at 1.
      rewrite record_command_book. cbn [book].
      assert (Hnew : valid_record (Record.mk (Name.mk (c :: name)) [] None)).
      { repeat split; [discriminate | constructor | discriminate]. }
      apply in_place_valid; [now apply setitem_valid |].
      now apply add_phone_valid. }
  destruct (decide (command = lit "change")) as [-> | Hchange].
  { destruct args as [| name [| old_phone [| new_phone [| ? ?]]]];
      try exact Hv.
    rewrite command_body_change.
    destruct (AddressBook.find name (book w)) as [record |] eqn:Hfind;
      [| exact Hv].
    rewrite record_command_book. apply in_place_valid; [exact Hv |].
    apply edit_phone_valid. now apply (find_valid name record (book w)). }
  destruct (decide (command = lit "add-birthday")) as [-> | Hbday].
  { destruct args as [| name [| bday [| ? ?]]]; try exact Hv.
    rewrite command_body_add_birthday.
    destruct (AddressBook.find name (book w)) as [record |] eqn:Hfind;
      [| exact Hv].
    rewrite record_command_book. apply in_place_valid; [exact Hv |].
    apply add_birthday_valid. now apply (find_valid name record (book w)). }
  now rewrite command_body_book.
Qed.

Lemma main_loop_valid (inputs : list (date.t * str)) (w : world) :
  valid_book (book w) -> valid_book (book (snd (main_loop inputs w))).
Proof.
  revert w. induction inputs as [| [today line] inputs IH]; intros w Hv;
    cbn [main_loop]; [exact Hv |].
  assert (Hstep : valid_book (book (snd (main_iteration today line w)))).
  { unfold main_iteration.
    destruct (parse_input line) as [[command args] | e]; [| exact Hv].
    pose proof (command_body_valid today command args w Hv) as Hbody.
    now destruct (command_body today command args w) as [[[] | e] w']. }
  destruct (main_iteration today line w) as [[| | e] w']; cbn [snd] in *;
    [now apply IH | exact Hstep | exact Hstep].
Qed.

(** X13: whatever the user types, the book only ever holds what the
    validators took: starting from a book of valid records, every record of
    the book has a name that is not empty, phones that [Phone] takes and, if
    it has a birthday, one that [Birthday] takes and whose date [date_obj]
    reads back. *)
Theorem stored_fields_stay_valid (inputs : list (date.t * str)) (w : world) :
  valid_book (book w) ->
  let b := book (snd (main_loop inputs w)) in
  valid_book b
  /\ forall key record,
       In (key, record) b ->
       Name.init (Name.value (Record.name record)) = Ok (Record.name record)
       /\ (forall ph, In ph (Record.phones record) ->
                      Phone.init (Phone.value ph) = Ok ph)
       /\ (forall birthday,
             Record.birthday record = Some birthday ->
             Birthday.init (Birthday.value birthday) = Ok birthday
             /\ exists born, Birthday.date_obj birthday = Ok born
                             /\ date.valid born).
Proof.
  intros Hv. cbn zeta. pose proof (main_loop_valid inputs w Hv) as Hb.
  split; [exact Hb |]. intros key record Hin.
  unfold valid_book in Hb. rewrite List.Forall_forall in Hb.
  destruct (Hb _ Hin) as (Hname & Hphones & Hbday). cbn [snd] in *.
  split; [| split].
  - destruct (Record.name record) as [[| c n]]; [now destruct Hname | reflexivity].
  - intros [v] Hph. rewrite List.Forall_forall in Hphones.
    rewrite Phone_init_ten_digits. now rewrite (Hphones _ Hph).
  - intros birthday Hbirthday. pose proof (Hbday _ Hbirthday) as Hacc. split.
    + destruct birthday as [v]. now apply Birthday_init_strptime_ok.
    + destruct (strptime_accepts_ok _ Hacc) as (born & Hborn).
      exists born. split; [exact Hborn |].
      now apply (strptime_valid (Birthday.value birthday)).
Qed.

(** X14: whatever the user types, the book keeps each record under the value
    of its name and holds no name twice, from a book that is so; a program
    started without a saved file starts from the empty book. *)
Theorem book_stays_well_formed (inputs : list (date.t * str)) (w : world) :
  wf_book (book w) ->
  let b := book (snd (main_loop inputs w)) in
  NoDup (map fst b)
  /\ forall key record,
       In (key, record) b ->
       Name.value (Record.name record) = key
       /\ AddressBook.find key b = Some record.
Proof.
  intros Hwf. cbn zeta. pose proof (main_loop_wf inputs w Hwf) as Hb.
  split; [apply Hb |]. intros key record Hin.
  destruct Hb as [Hnodup Hkeys]. pose proof Hkeys as Hkeys'.
  rewrite List.Forall_forall in Hkeys'. split; [exact (Hkeys' _ Hin) |].
  destruct (AddressBook.find key (book (snd (main_loop inputs w))))
    as [r |] eqn:Hfind.
  - apply find_In in Hfind. f_equal.
    apply (wf_book_same_name _ key key r record (conj Hnodup Hkeys) Hfind Hin).
    pose proof (Hkeys' _ Hin) as E1. pose proof (Hkeys' _ Hfind) as E2.
    cbn [fst snd] in E1, E2. congruence.
  - exfalso. clear Hnodup Hkeys Hkeys'.
    induction (book (snd (main_loop inputs w))) as [| [k r] b IH];
      [destruct Hin |].
    cbn in Hfind. unfold str_eqb in Hfind. case_bool_decide as Hk; [discriminate |].
    destruct Hin as [[= -> _] | Hin]; [now apply Hk | now apply IH].
Qed.

End Validity.

Lemma stored_fields_stay_valid_witness :
  let today := date.mk 2024 6 10 in
  let inputs := [(today, lit "add Bob 0123456789");
                 (today, lit "add-birthday Bob 29.02.2000");
                 (today, lit "add Bob 12");
                 (today, lit "change Bob 0123456789 1111111111")] in
  let w := @mk_world Codec.runtime [] ∅ [] in
  valid_book (book (snd (main_loop inputs w)))
  /\ book (snd (main_loop inputs w))
     = [(lit "Bob", Record.mk (Name.mk (lit "Bob")) [Phone.mk (lit "1111111111")]
                              (Some (Birthday.mk (lit "29.02.2000"))))].
Proof.
  intros today inputs w. split.
  - apply (@stored_fields_stay_valid Codec.runtime inputs w). constructor.
  - vm_compute. reflexivity.
Defined.

Lemma book_stays_well_formed_witness :
  let today := date.mk 2024 6 10 in
  let inputs := [(today, lit "add Bob 0123456789");
                 (today, lit "add Ann 1111111111");
                 (today, lit "add Bob 2222222222")] in
  let w := @mk_world Codec.runtime [] ∅ [] in
  NoDup (map fst (book (snd (main_loop inputs w))))
  /\ map fst (book (snd (main_loop inputs w))) = [lit "Bob"; lit "Ann"].
Proof.
  intros today inputs w. split.
  - apply (@book_stays_well_formed Codec.runtime inputs w). apply wf_book_empty.
  - vm_compute. reflexivity.
Defined.

(** ** More on get_upcoming_birthdays *)

Lemma upcoming_step_shape (days : Z) (today : date.t) (record : Record.t)
      (result result' : list AddressBook.entry) :
  AddressBook.upcoming_step days today record result = Ok result' ->
  (result' = result
   \/ exists d, result' = result ++ [AddressBook.mk_entry
                                      (Name.value (Record.name record)) d])
  /\ forall birthday, Record.birthday record = Some birthday ->
       exists born occ, Birthday.date_obj birthday = Ok born
                        /\ occurrence born today = Ok occ.
Proof.
  unfold AddressBook.upcoming_step.
  destruct (Record.birthday record) as [birthday |];
    [| intros [= <-]; split; [now left | discriminate]].
  destruct (Birthday.date_obj birthday) as [born |] eqn:Hborn; [| discriminate].
  cbn [res_bind]. pose proof (occurrence_as_computed born today) as Hocc.
  destruct (date.replace_year born (date.year today)) as [bday |];
    [| discriminate].
  cbn [res_bind] in *. rewrite Hocc.
  destruct (occurrence born today) as [occ |] eqn:Ho; [| discriminate].
  cbn [res_bind].
  assert (Hex : forall b, Some birthday = Some b ->
                          exists born0 occ0, Birthday.date_obj b = Ok born0
                                             /\ occurrence born0 today = Ok occ0).
  { intros b [= <-]. now exists born, occ. }
  destruct ((0 <=? date.sub_days occ today) && (date.sub_days occ today <=? days));
    [| intros [= <-]; split; [now left | exact Hex]].
  destruct (if date.weekday occ =? 5 then date.add_days occ 2
            else if date.weekday occ =? 6 then date.add_days occ 1 else Ok occ)
    as [congr |]; [| discriminate].
  cbn [res_bind]. intros [= <-]. split; [right; eauto | exact Hex].
Qed.

Lemma upcoming_loop_shape (days : Z) (today : date.t) (records : list Record.t) :
  forall result result',
    AddressBook.upcoming_loop days today records result = Ok result' ->
    occurrences_exist records today
    /\ exists added,
         result' = result ++ added
         /\ map AddressBook.name added
            `sublist_of` map (fun r => Name.value (Record.name r)) records.
Proof.
  induction records as [| r records IH]; intros result result';
    cbn [AddressBook.upcoming_loop].
  - intros [= <-]. split; [intros ? ? [] |].
    exists []. rewrite app_nil_r. split; [reflexivity | constructor].
  - destruct (AddressBook.upcoming_step days today r result) as [result1 |] eqn:Hstep;
      [| discriminate].
    cbn [res_bind]. intros Hloop.
    destruct (upcoming_step_shape _ _ _ _ _ Hstep) as [Hshape Hocc].
    destruct (IH _ _ Hloop) as (Hex & added & -> & Hsub). split.
    + intros record birthday [<- | Hin]; [apply Hocc | now apply Hex].
    + destruct Hshape as [-> | (d & ->)].
      * exists added. split; [reflexivity |]. cbn [map]. now apply sublist_cons.
      * exists (AddressBook.mk_entry (Name.value (Record.name r)) d :: added).
        rewrite <- app_assoc. split; [reflexivity |].
        cbn [map AddressBook.name]. now apply sublist_skip.
Qed.

(** X17: the result of [get_upcoming_birthdays] follows the order of the
    book and holds a record at most once: its names are those of some of the
    records, in the order of the book; when no two records of the book have
    one name, no name is twice in the result. *)
Theorem upcoming_birthdays_in_book_order
        (book : AddressBook.t) (days : Z) (today : date.t)
        (result : list AddressBook.entry) :
  AddressBook.get_upcoming_birthdays days today book = Ok result ->
  map AddressBook.name result
    `sublist_of` map (fun r => Name.value (Record.name r)) (AddressBook.values book)
  /\ (length result <= length book)%nat
  /\ (wf_book book -> NoDup (map AddressBook.name result)).
Proof.
  unfold AddressBook.get_upcoming_birthdays. intros Hrun.
  destruct (upcoming_loop_shape _ _ _ _ _ Hrun) as (_ & added & -> & Hsub).
  cbn [app]. split; [exact Hsub |]. split.
  - apply sublist_length in Hsub. rewrite !length_map in Hsub.
    unfold AddressBook.values in Hsub. now rewrite length_map in Hsub.
  - intros [Hnodup Hkeys]. eapply sublist_NoDup; [| exact Hsub].
    replace (map (fun r => Name.value (Record.name r)) (AddressBook.values book))
      with (map fst book); [exact Hnodup |].
    unfold AddressBook.values. rewrite map_map.
    apply map_ext_in. intros item Hitem.
    rewrite List.Forall_forall in Hkeys. symmetry. exact (Hkeys _ Hitem).
Qed.

Lemma weekday_range (d : date.t) : 0 <= date.weekday d <= 6.
Proof. unfold date.weekday. Z.div_mod_to_equations. lia. Qed.

(** X15: no congratulation is on a Saturday or a Sunday, and none is before
    today or more than [days] + 2 days ahead: every element of the result
    carries the name of a record of the book and the date, as strftime
    prints it, of a day from Monday to Friday in that range. *)
Theorem congratulation_on_a_weekday
        (book : AddressBook.t) (days : Z) (today : date.t)
        (result : list AddressBook.entry) :
  AddressBook.get_upcoming_birthdays days today book = Ok result ->
  forall e, In e result ->
    exists record congr,
      In record (AddressBook.values book)
      /\ AddressBook.name e = Name.value (Record.name record)
      /\ AddressBook.congratulation_date e = date.strftime congr
      /\ date.valid congr
      /\ 0 <= date.weekday congr <= 4
      /\ 0 <= date.sub_days congr today <= days + 2.
Proof.
  unfold AddressBook.get_upcoming_birthdays. intros Hrun e He.
  destruct (upcoming_loop_shape _ _ _ _ _ Hrun) as (Hex & _).
  destruct (upcoming_loop_selects days today _ Hex [])
    as (added & Hrun' & Hsound & _).
  rewrite Hrun in Hrun'. injection Hrun' as ->. cbn [app] in He.
  destruct (Hsound e He)
    as (record & Hrecord & occ & congr & _ & Hwin & Hcongr & ->).
  exists record, congr. split; [exact Hrecord |]. do 2 (split; [reflexivity |]).
  destruct Hcongr as (Hvalid & Hsat & Hsun & Hother). split; [exact Hvalid |].
  unfold in_window, date.sub_days, Saturday, Sunday, Monday in *.
  pose proof (weekday_range occ) as Hrange.
  destruct (Z.eq_dec (date.weekday occ) 5) as [H5 | H5].
  { destruct (Hsat H5) as [Ho Hw]. lia. }
  destruct (Z.eq_dec (date.weekday occ) 6) as [H6 | H6].
  { destruct (Hsun H6) as [Ho Hw]. lia. }
  rewrite (Hother H5 H6). lia.
Qed.

(** The day of the year grows with the month and the day. *)
Lemma day_of_year_lt (y m d m' d' : Z) :
  1 <= m <= 12 -> 1 <= m' <= 12 ->
  1 <= d <= date.days_in_month y m -> 1 <= d' <= date.days_in_month y m' ->
  m < m' \/ (m = m' /\ d < d') ->
  date.days_before_month y m + d < date.days_before_month y m' + d'.
Proof.
  intros Hm Hm' Hd Hd' Hlt.
  each_month m Hm; each_month m' Hm'; try lia;
    unfold date.days_before_month, date.days_in_month in *; simpl in *;
    destruct (date.is_leap y); lia.
Qed.

Lemma day_of_year_bounds (y m d : Z) :
  1 <= m <= 12 -> 1 <= d <= date.days_in_month y m ->
  1 <= date.days_before_month y m + d <= date.days_before_month y 12 + 31.
Proof.
  intros Hm Hd.
  each_month m Hm;
    unfold date.days_before_month, date.days_in_month in *; simpl in *;
    destruct (date.is_leap y); lia.
Qed.

Lemma days_before_month_next_year (y m : Z) :
  1 <= m <= 12 ->
  date.days_before_month (y + 1) m <= date.days_before_month y m + 1
  /\ 334 <= date.days_before_month y 12 <= 335.
Proof.
  intros Hm.
  each_month m Hm;
    unfold date.days_before_month; simpl;
    destruct (date.is_leap y), (date.is_leap (y + 1)); lia.
Qed.

(** The occurrence of a birthday is today or later, and within 366 days. *)
Lemma occurrence_ahead (born today occ : date.t) :
  date.valid today -> occurrence born today = Ok occ ->
  0 <= date.sub_days occ today <= 366.
Proof.
  intros (_ & Htm & Htd). unfold occurrence, date.replace_year.
  destruct (date.new (date.year today) (date.month born) (date.day born))
    as [this_year |] eqn:Hthis; [| discriminate].
  cbn [res_bind]. apply date_new_ok in Hthis as [-> (_ & Hm & Hd)].
  cbn [date.year date.month date.day] in Hm, Hd.
  destruct today as [Y tm td]. cbn [date.year date.month date.day] in *.
  pose proof (day_of_year_bounds Y _ _ Hm Hd) as Hdoy.
  pose proof (day_of_year_bounds Y _ _ Htm Htd) as Htoday.
  pose proof (days_before_month_next_year Y _ Hm) as [Hnext H12].
  unfold date.lt. cbn [date.year date.month date.day].
  rewrite Z.ltb_irrefl, Z.eqb_refl. cbn [orb andb].
  destruct ((date.month born <? tm)
            || ((date.month born =? tm) && (date.day born <? td))) eqn:Hlt.
  - intros Hnew. apply date_new_ok in Hnew as [-> (_ & _ & Hd')].
    cbn [date.year date.month date.day] in Hd'.
    assert (Hbefore : date.days_before_month Y (date.month born) + date.day born
                      < date.days_before_month Y tm + td).
    { apply day_of_year_lt; try assumption. lia. }
    pose proof (day_of_year_bounds (Y + 1) _ _ Hm Hd') as Hdoy'.
    unfold date.sub_days, date.toordinal. cbn [date.year date.month date.day].
    rewrite days_before_next_year. lia.
  - intros [= <-].
    unfold date.sub_days, date.toordinal. cbn [date.year date.month date.day].
    destruct (Z.eq_dec (date.month born) tm) as [E | E].
    + rewrite E in *. lia.
    + assert (Hafter : date.days_before_month Y tm + td
                       < date.days_before_month Y (date.month born)
                         + date.day born).
      { apply day_of_year_lt; try assumption. lia. }
      lia.
Qed.

(** X16: the occurrence of a birthday is never before today and never more
    than 366 days ahead, so the lower bound of the window never leaves a
    record out: with a window of 366 days or more, the result names every
    record of the book that has a birthday. *)
Theorem every_birthday_within_a_year
        (book : AddressBook.t) (days : Z) (today : date.t)
        (result : list AddressBook.entry) :
  date.valid today ->
  AddressBook.get_upcoming_birthdays days today book = Ok result ->
  (forall record occ,
      In record (AddressBook.values book) ->
      has_occurrence record today occ ->
      0 <= date.sub_days occ today <= 366)
  /\ (366 <= days ->
      forall record birthday,
        In record (AddressBook.values book) ->
        Record.birthday record = Some birthday ->
        In (Name.value (Record.name record)) (map AddressBook.name result)).
Proof.
  intros Htoday Hrun. split.
  - intros record occ _ (birthday & born & _ & _ & Hocc).
    now apply (occurrence_ahead born).
  - intros Hdays record birthday Hin Hb.
    unfold AddressBook.get_upcoming_birthdays in Hrun.
    destruct (upcoming_loop_shape _ _ _ _ _ Hrun) as (Hex & _).
    destruct (upcoming_loop_selects days today _ Hex [])
      as (added & Hrun' & _ & Hcomplete).
    rewrite Hrun in Hrun'. injection Hrun' as ->.
    destruct (Hex record birthday Hin Hb) as (born & occ & Hborn & Hocc).
    pose proof (occurrence_ahead born today occ Htoday Hocc) as Hahead.
    destruct (Hcomplete record occ Hin) as (e & He & _ & congr & _ & _ & _ & ->).
    + now exists birthday, born.
    + unfold in_window. lia.
    + apply in_map_iff. eexists. split; [| exact He]. reflexivity.
Qed.

Lemma upcoming_birthdays_in_book_order_witness :
  let on d := Record.mk (Name.mk d) [] (Some (Birthday.mk d)) in
  let book := [(lit "17.06.2000", on (lit "17.06.2000"));
               (lit "01.01.2000", on (lit "01.01.2000"));
               (lit "10.06.2000", on (lit "10.06.2000"))] in
  let result := [AddressBook.mk_entry (lit "17.06.2000") (lit "17.06.2024");
                 AddressBook.mk_entry (lit "10.06.2000") (lit "10.06.2024")] in
  map AddressBook.name result
    `sublist_of` map (fun r => Name.value (Record.name r)) (AddressBook.values book)
  /\ (length result <= length book)%nat.
Proof.
  intros on book result.
  destruct (upcoming_birthdays_in_book_order book 7 (date.mk 2024 6 10) result)
    as (Hsub & Hlen & _).
  - vm_compute. reflexivity.
  - now split.
Defined.

Lemma congratulation_on_a_weekday_witness :
  let bob := Record.mk (Name.mk (lit "Bob")) []
               (Some (Birthday.mk (lit "16.06.1990"))) in
  let today := date.mk 2024 6 9 in
  let e := AddressBook.mk_entry (lit "Bob") (lit "17.06.2024") in
  exists record congr,
    In record (AddressBook.values [(lit "Bob", bob)])
    /\ AddressBook.name e = Name.value (Record.name record)
    /\ AddressBook.congratulation_date e = date.strftime congr
    /\ date.valid congr
    /\ 0 <= date.weekday congr <= 4
    /\ 0 <= date.sub_days congr today <= 7 + 2.
Proof.
  intros bob today e.
  apply (congratulation_on_a_weekday [(lit "Bob", bob)] 7 today [e]).
  - vm_compute. reflexivity.
  - now left.
Defined.

Lemma every_birthday_within_a_year_witness :
  let ann := Record.mk (Name.mk (lit "Ann")) []
               (Some (Birthday.mk (lit "09.06.1990"))) in
  let bob := Record.mk (Name.mk (lit "Bob")) [] None in
  let book := [(lit "Ann", ann); (lit "Bob", bob)] in
  let today := date.mk 2024 6 10 in
  let result := [AddressBook.mk_entry (lit "Ann") (lit "09.06.2025")] in
  In (Name.value (Record.name ann)) (map AddressBook.name result)
  /\ 0 <= date.sub_days (date.mk 2025 6 9) today <= 366.
Proof.
  intros ann bob book today result.
  destruct (every_birthday_within_a_year book 400 today result)
    as [Hahead Hall].
  - vm_compute. repeat split; discriminate.
  - vm_compute. reflexivity.
  - split.
    + apply (Hall ltac:(lia) ann (Birthday.mk (lit "09.06.1990")));
        [now left | reflexivity].
    + apply (Hahead ann (date.mk 2025 6 9)); [now left |].
      exists (Birthday.mk (lit "09.06.1990")), (date.mk 1990 6 9).
      repeat split; vm_compute; reflexivity.
Defined.

(** ** AddressBook.__str__ *)

(** X21: the book prints as "Address book is empty" exactly when it holds no
    record: the text of a book with records starts with the "Contact name: "
    of its first record, whatever the names, phones and birthdays are. *)
Theorem empty_text_for_empty_book_only (self : AddressBook.t) :
  (AddressBook.to_str self = lit "Address book is empty" <-> self = [])
  /\ (self <> [] ->
      exists tail, AddressBook.to_str self = lit "Contact name: " ++ tail).
Proof.
  destruct self as [| [key r] rest].
  - split; [split; reflexivity | congruence].
  - assert (Hstart : exists tail,
               AddressBook.to_str ((key, r) :: rest) = lit "Contact name: " ++ tail).
    { unfold AddressBook.to_str, AddressBook.values. cbn [map snd].
      unfold Record.to_str at 1. destruct (map Record.to_str (map snd rest));
        cbn [join]; rewrite <- ?app_assoc; eauto. }
    split; [| intros _; exact Hstart].
    split; [| discriminate]. destruct Hstart as (tail & ->). discriminate.
Qed.
